(** * ualRate: the pension fund and the annual cycle of the pension plan

    A shallow embedding of [src/ualRate/pensFund.py] and of
    [pensPlan.advanceOneYear] from [src/ualRate/pensPlan.py].

    Numbers.  The Python code computes with floats; here a number is an
    exact rational ([Q]), compared with [==].  Binary rounding error is
    not modelled; [round(x, 2)] is rounding of the exact value to the
    nearest hundredth, ties to the even hundredth.

    Exceptions.  A Python division raises [ZeroDivisionError] on a zero
    divisor and a dict subscript raises [KeyError] on a missing key; both
    are values of [result].

    Shapes.  The three-element lists [pcts] and [ledger[year]] are triples
    and the six-element list [vol] is a record, so that a subscript with a
    literal index is a projection.

    Randomness.  The three samples that [np.random.normal] draws in
    [addInvestmentEarnings] are an argument of the operation. *)

From Stdlib Require Import ZArith QArith Qround Qabs Lqa Lia String.
From stdpp Require Import base option strings gmap.

Local Open Scope Q_scope.

(** ** Python numbers and exceptions *)

Module Py.

Inductive exn := ZeroDivisionError | KeyError.

Inductive result (A : Type) :=
| Ok (a : A)
| Raise (e : exn).
Arguments Ok {A} a.
Arguments Raise {A} e.

Definition bind {A B} (m : result A) (k : A -> result B) : result B :=
  match m with
  | Ok a => k a
  | Raise e => Raise e
  end.

(** [try: m  except ZeroDivisionError: h] *)
Definition try_zde {A} (m : result A) (h : result A) : result A :=
  match m with
  | Raise ZeroDivisionError => h
  | _ => m
  end.

Definition is_ok {A} (m : result A) : bool :=
  match m with Ok _ => true | Raise _ => false end.

(** [x < y], [x == y], [x != y] and [x >= y] on numbers *)
Definition ltb (x y : Q) : bool := (Qnum x * QDen y <? Qnum y * QDen x)%Z.
Definition eqb (x y : Q) : bool := Qeq_bool x y.
Definition neb (x y : Q) : bool := negb (Qeq_bool x y).
Definition geb (x y : Q) : bool := Qle_bool y x.

(** [x / y] *)
Definition div (x y : Q) : result Q :=
  if eqb y 0 then Raise ZeroDivisionError else Ok (x / y).

(** [max(x, y)]: the first argument, unless the second is greater. *)
Definition max (x y : Q) : Q := if ltb x y then y else x.

(** The integer nearest to [x], a tie going to the even one. *)
Definition round_half_even (x : Q) : Z :=
  let n := Qnum x in
  let d := Zpos (Qden x) in
  let q := (n / d)%Z in
  let r := (n mod d)%Z in
  match (2 * r ?= d)%Z with
  | Lt => q
  | Gt => (q + 1)%Z
  | Eq => if Z.even q then q else (q + 1)%Z
  end.

(** [round(x, 2)] *)
Definition round2 (x : Q) : Q := round_half_even (x * 100) # 100.

(** A number with at most two decimal places. *)
Definition two_decimals (x : Q) : Prop := exists c : Z, x == c # 100.

(** [sum([a, b, c])]: the items added to 0 from the left. *)
Definition sum3 (t : Q * Q * Q) : Q :=
  let '(a, b, c) := t in 0 + a + b + c.

End Py.

Import Py.

#[global] Instance result_ret : MRet result := @Ok.
#[global] Instance result_bind : MBind result :=
  fun A B k m => Py.bind m k.

(** ** pensFund *)

Module Fund.

Record volatility := {
  mean_e : Q; std_e : Q;
  mean_b : Q; std_b : Q;
  mean_o : Q; std_o : Q
}.

Record pensFund := {
  currentYear : Z;
  pcts : Q * Q * Q;
  vol : volatility;
  equity : Q;
  bonds : Q;
  other : Q;
  ledger : gmap Z (Q * Q * Q)
}.

Definition set_balances (f : pensFund) (e b o : Q) : pensFund :=
  {| currentYear := currentYear f; pcts := pcts f; vol := vol f;
     equity := e; bonds := b; other := o; ledger := ledger f |}.

Definition balances (f : pensFund) : Q * Q * Q := (equity f, bonds f, other f).

Definition pct0 (f : pensFund) : Q := fst (fst (pcts f)).
Definition pct1 (f : pensFund) : Q := snd (fst (pcts f)).
Definition pct2 (f : pensFund) : Q := snd (pcts f).

(** [self.equity + self.bonds + self.other] *)
Definition total (f : pensFund) : Q := equity f + bonds f + other f.

(** [pensFund.__init__] *)
Definition init (assetTotal : Q) (currYear : Z) (v : volatility)
    (pctE pctB pctO : Q) : pensFund :=
  let e := round2 (pctE * assetTotal) in
  let b := round2 (pctB * assetTotal) in
  let o := round2 (pctO * assetTotal) in
  {| currentYear := currYear; pcts := (pctE, pctB, pctO); vol := v;
     equity := e; bonds := b; other := o;
     ledger := {[ currYear := (e, b, o) ]} |}.

(** [pensFund.addPremiums] *)
Definition addPremiums (f : pensFund) (premiums : Q) : pensFund :=
  let total := equity f + bonds f + other f in
  if eqb total 0 then
    set_balances f
      (equity f + pct0 f * premiums)
      (bonds f + pct1 f * premiums)
      (other f + pct2 f * premiums)
  else
    set_balances f
      (equity f + (equity f / total) * premiums)
      (bonds f + (bonds f / total) * premiums)
      (other f + (other f / total) * premiums).

(** The loop of [payGo]: [total -= asset] for each negative [asset]. *)
Definition shortfall_step (acc asset : Q) : Q :=
  if ltb asset 0 then acc - asset else acc.

(** [pensFund.payGo]: the returned amount and the fund afterwards. *)
Definition payGo (f : pensFund) : Q * pensFund :=
  let total := equity f + bonds f + other f in
  if geb total 0 then (0, f)
  else
    let total :=
      shortfall_step (shortfall_step (shortfall_step 0 (equity f)) (bonds f))
        (other f) in
    (total,
     set_balances f (max (equity f) 0) (max (bonds f) 0) (max (other f) 0)).

(** The subtraction of [payBenefits], before its call of [payGo]. *)
Definition withdraw (f : pensFund) (benefits : Q) : pensFund :=
  let total := equity f + bonds f + other f in
  if eqb total 0 then
    set_balances f
      (equity f - pct0 f * benefits)
      (bonds f - pct1 f * benefits)
      (other f - pct2 f * benefits)
  else
    set_balances f
      (equity f - (equity f / total) * benefits)
      (bonds f - (bonds f / total) * benefits)
      (other f - (other f / total) * benefits).

(** [pensFund.payBenefits] *)
Definition payBenefits (f : pensFund) (benefits : Q) : Q * pensFund :=
  payGo (withdraw f benefits).

Record samples := { draw_e : Q; draw_b : Q; draw_o : Q }.

(** [pensFund.addInvestmentEarnings]: the pair [[r, A]] and the fund
    afterwards.  The balances are assigned before the division, so a
    caller that catches the exception would see them changed; the only
    caller does not catch it. *)
Definition addInvestmentEarnings (f : pensFund) (s : samples)
    : result (Q * Q * pensFund) :=
  let e := draw_e s in
  let b := draw_b s in
  let o := draw_o s in
  let A := equity f + bonds f + other f in
  let f1 := set_balances f (equity f * (1 + e)) (bonds f * (1 + b))
              (other f * (1 + o)) in
  let f2 := set_balances f1 (round2 (equity f1)) (round2 (bonds f1))
              (round2 (other f1)) in
  let newA := equity f2 + bonds f2 + other f2 in
  r ← div (newA - A) A;
  Ok (r, A, f2).

(** [pensFund.updateLedger] *)
Definition updateLedger (f : pensFund) (year : Z) : pensFund :=
  {| currentYear := year; pcts := pcts f; vol := vol f;
     equity := equity f; bonds := bonds f; other := other f;
     ledger := <[ year := (equity f, bonds f, other f) ]> (ledger f) |}.

(** [pensFund.annualReport].  The two number formats of Python are not
    modelled: [grouped] stands for ['{:,}'.format] and [no_decimals] for
    ["%.0f" %]. *)
Section Report.
Variable grouped : Q -> string.
Variable no_decimals : Z -> string.

Definition nl : string := String (Ascii.ascii_of_nat 10) EmptyString.
Definition tab : string := String (Ascii.ascii_of_nat 9) EmptyString.

Definition found (report : Q * Q * Q) : string :=
  ("Assets:" ++ nl ++ tab ++ "Equity = $" ++ grouped (fst (fst report))
   ++ nl ++ tab ++ "Bonds = $" ++ grouped (snd (fst report))
   ++ nl ++ tab ++ "Other = $" ++ grouped (snd report)
   ++ nl ++ "Total: $" ++ grouped (round2 (sum3 report)))%string.

Definition not_found (year : Z) : string :=
  ("Assets could not be found for the year " ++ no_decimals year ++ ".")%string.

Definition annualReport (f : pensFund) (year : Z) : string :=
  let year := if (year =? 0)%Z then currentYear f else year in
  match ledger f !! year with
  | Some report => found report
  | None => not_found year
  end.
End Report.

End Fund.

(** ** pensPlan *)

Module Plan.

(** What [advanceOneYear] reads from the population ([pensPop], not part
    of this development) and from the random generator in one year. *)
Record yearInfo := {
  benefit : Q;          (* info['benefit'] *)
  popGrowth : Z;        (* active members after hiring minus before *)
  totalLiability : Q;   (* population.calculateTotalLiability() *)
  totalSalary : Q;      (* population.calculateTotalSalary() *)
  draws : Fund.samples
}.

Record pensPlan := {
  currentYear : Z;
  employ : Q;
  cr : Q;
  payGo : Q;
  totalPay : Q;
  pr : Q;
  instability : Q;
  r : Q;
  discountRate : Q;
  liability : Q;
  fund : Fund.pensFund;
  ual : Q;
  assets : Q;
  growthRate : Q
}.

(** [self.fund.ledger[year]] then [sum] *)
Definition ledgerTotal (f : Fund.pensFund) (year : Z) : result Q :=
  match Fund.ledger f !! year with
  | Some t => Ok (sum3 t)
  | None => Raise KeyError
  end.

(** [pensPlan.__init__], from the liability that the simulated population
    reports; the fund gets the default allocation. *)
Definition init (currentYear : Z) (volatility : Fund.volatility)
    (employmentGrowth discountRate funds premiumRate : Q)
    (totalLiability : Q) : result pensPlan :=
  let liability := round2 totalLiability in
  let fund :=
    Fund.init (funds * liability) currentYear volatility
      (6 # 10) (3 # 10) (1 # 10) in
  total ← ledgerTotal fund currentYear;
  Ok {| currentYear := currentYear; employ := employmentGrowth; cr := 0;
        payGo := 0; totalPay := 0; pr := premiumRate; instability := 1;
        r := 0; discountRate := discountRate; liability := liability;
        fund := fund; ual := round2 (liability - total); assets := total;
        growthRate := 0 |}.

(** Lines 84-90 of [advanceOneYear]: the contribution rate. *)
Definition contributionRate (normalCost payGo totalPay : Q) (popGrowth : Z)
    : result Q :=
  if negb (popGrowth =? 0)%Z then
    div (normalCost + payGo) (totalPay * inject_Z popGrowth)
  else
    try_zde (div (normalCost + payGo) totalPay) (Ok 0).

(** Lines 94-100 of [advanceOneYear]: the growth rate before rounding. *)
Definition ualGrowth (oldUAL newUAL liability : Q) : result Q :=
  try_zde (div ((newUAL - oldUAL) * 100) oldUAL)
    (if neb newUAL 0 then div (newUAL * 100) liability else Ok 0).

(** [pensPlan.advanceOneYear].  An exception leaves the call at once; the
    fields assigned before it are not part of the result. *)
Definition advanceOneYear (p : pensPlan) (y : yearInfo) : result pensPlan :=
  let currentYear' := (currentYear p + 1)%Z in
  let popGrowth := popGrowth y in
  let newLiability := round2 (totalLiability y) in
  let normalCost := newLiability - liability p in
  let liability' := newLiability in
  let totalPay' := round2 (totalSalary y) in
  '(r0, A, f1) ← Fund.addInvestmentEarnings (fund p) (draws y);
  let r' := round2 (r0 * 100) in
  let contribution := pr p * normalCost in
  let f2 := Fund.addPremiums f1 contribution in
  let '(g, f3) := Fund.payBenefits f2 (benefit y) in
  let payGo' := round2 g in
  let f4 := Fund.updateLedger f3 currentYear' in
  assets' ← ledgerTotal f4 currentYear';
  let instability' :=
    (contribution + discountRate p * liability') - (r0 * A + normalCost) in
  cr' ← contributionRate normalCost payGo' totalPay' popGrowth;
  let newUAL := max (liability' - assets' - payGo') 0 in
  growth ← ualGrowth (ual p) newUAL liability';
  Ok {| currentYear := currentYear'; employ := employ p; cr := cr';
        payGo := payGo'; totalPay := totalPay'; pr := pr p;
        instability := instability'; r := r';
        discountRate := discountRate p; liability := liability';
        fund := f4; ual := newUAL; assets := assets';
        growthRate := round2 growth |}.

End Plan.

(** ** runModel and the means of getModelData *)

Module Model.

(** What [runModel] reads from the population for its yearly record, next
    to what [advanceOneYear] reads. *)
Record census := {
  active : Z;        (* members with status 'active' *)
  retired : Z;       (* members with status 'retired' *)
  avgService : Q     (* population.getAvgService() *)
}.

(** [round(x)]: the nearest integer, a tie going to the even one. *)
Definition round0 (x : Q) : Q := inject_Z (round_half_even x).

(** The twelve values that [runModel] records for a year, with their keys,
    in the order of the source. *)
Definition metrics (p : Plan.pensPlan) (c : census) : list (string * Q) :=
  [ ("UAL"%string, Plan.ual p);
    ("Assets"%string, Plan.assets p);
    ("Liability"%string, Plan.liability p);
    ("UAL Growth(%)"%string, round2 (Plan.growthRate p));
    ("Active Members"%string, inject_Z (active c));
    ("Retired Members"%string, inject_Z (retired c));
    ("Avg. Service"%string, round0 (avgService c));
    ("Contribution Rate"%string, Plan.cr p);
    ("payGo"%string, Plan.payGo p);
    ("Total Salary"%string, Plan.totalPay p);
    ("Instability"%string, round0 (Plan.instability p));
    ("Investment Returns(%)"%string, Plan.r p) ].

(** [d[key] = [value]] for each of the twelve keys. *)
Definition start (row : list (string * Q)) : gmap string (list Q) :=
  foldl (fun d kv => <[ kv.1 := [kv.2] ]> d) ∅ row.

(** [d[key].append(value)] *)
Definition append (d : gmap string (list Q)) (kv : string * Q)
    : result (gmap string (list Q)) :=
  match d !! kv.1 with
  | Some l => Ok (<[ kv.1 := l ++ [kv.2] ]> d)
  | None => Raise KeyError
  end.

(** The twelve appends of one year. *)
Fixpoint appendAll (d : gmap string (list Q)) (row : list (string * Q))
    : result (gmap string (list Q)) :=
  match row with
  | [] => Ok d
  | kv :: row' => d' ← append d kv; appendAll d' row'
  end.

(** The loop [for year in range(years)] of [runModel], one item of [ys]
    per year. *)
Fixpoint yearsLoop (p : Plan.pensPlan) (d : gmap string (list Q))
    (ys : list (Plan.yearInfo * census)) : result (gmap string (list Q)) :=
  match ys with
  | [] => Ok d
  | yc :: ys' =>
      p' ← Plan.advanceOneYear p yc.1;
      d' ← appendAll d (metrics p' yc.2);
      yearsLoop p' d' ys'
  end.

(** [runModel], the dictionary it returns; [years] is the length of [ys].
    With [saveFiles] the source also writes the dictionary to files and
    returns the same dictionary. *)
Definition runModel (volatility : Fund.volatility)
    (employmentGrowth discountRate funds premiums : Q)
    (totalLiability : Q) (c0 : census) (ys : list (Plan.yearInfo * census))
    : result (gmap string (list Q)) :=
  p ← Plan.init 2000 volatility employmentGrowth discountRate funds premiums
        totalLiability;
  yearsLoop p (start (metrics p c0)) ys.

(** The exceptions of the averaging loop of [getModelData]. *)
Inductive lookupError := NoKey | NoIndex | StatisticsError.

(** [run[key][i]] *)
Definition cell (key : string) (i : nat) (run : gmap string (list Q))
    : lookupError + Q :=
  match run !! key with
  | None => inl NoKey
  | Some l => match l !! i with
              | None => inl NoIndex
              | Some x => inr x
              end
  end.

(** [[run[key][i] for run in model_data]] *)
Fixpoint column (key : string) (i : nat)
    (model_data : list (gmap string (list Q))) : lookupError + list Q :=
  match model_data with
  | [] => inr []
  | run :: runs =>
      match cell key i run with
      | inl e => inl e
      | inr x => match column key i runs with
                 | inl e => inl e
                 | inr m => inr (x :: m)
                 end
      end
  end.

(** [statistics.mean]: the sum over the number of items; no items raise
    [StatisticsError]. *)
Definition mean (m : list Q) : lookupError + Q :=
  match m with
  | [] => inl StatisticsError
  | _ => inr (foldl Qplus 0 m / inject_Z (Z.of_nat (length m)))
  end.

(** The keys whose means are rounded to an integer. *)
Definition integral (key : string) : bool :=
  (String.eqb key "Active Members" || String.eqb key "Retired Members"
   || String.eqb key "Avg. Service" || String.eqb key "Instability")%bool.

(** The keys of [mean_data], in the order of the source. *)
Definition keys : list string :=
  [ "UAL"; "Assets"; "Liability"; "UAL Growth(%)"; "Active Members";
    "Retired Members"; "Avg. Service"; "Contribution Rate"; "payGo";
    "Total Salary"; "Instability"; "Investment Returns(%)" ]%string.

(** The body of [for key in mean_data] for one key and one year. *)
Definition meanStep (model_data : list (gmap string (list Q))) (i : nat)
    (mean_data : gmap string (list Q)) (key : string)
    : lookupError + gmap string (list Q) :=
  match column key i model_data with
  | inl e => inl e
  | inr m =>
      match mean m with
      | inl e => inl e
      | inr x =>
          let x' := if integral key then round0 x else round2 x in
          match mean_data !! key with
          | None => inl NoKey
          | Some l => inr (<[ key := l ++ [x'] ]> mean_data)
          end
      end
  end.

(** A loop body run over a list of items, the first exception ending it. *)
Fixpoint forEach {A S : Type} (body : S -> A -> lookupError + S) (s : S)
    (items : list A) : lookupError + S :=
  match items with
  | [] => inr s
  | a :: items' =>
      match body s a with
      | inl e => inl e
      | inr s' => forEach body s' items'
      end
  end.

(** The averaging loops of [getModelData]: [mean_data] as it is returned. *)
Definition meanData (model_data : list (gmap string (list Q))) (years : nat)
    : lookupError + gmap string (list Q) :=
  let mean_data := foldl (fun d key => <[ key := [] ]> d) ∅ keys in
  forEach (fun d i => forEach (meanStep model_data i) d keys) mean_data
    (seq 0 years).

End Model.

(** ** Vocabulary of the statements, and sample states *)

(** What a negative balance adds to the shortfall: its absolute value. *)
Definition shortfall (x : Q) : Q := if ltb x 0 then Qabs x else 0.

(** The growth rate before rounding, with the total division of [Q]. *)
Definition growth (oldUAL newUAL liability : Q) : Q :=
  if neb oldUAL 0 then (newUAL - oldUAL) * 100 / oldUAL
  else if neb newUAL 0 then newUAL * 100 / liability
  else 0.

(** What an operation of the fund leaves alone. *)
Definition same_frame (f f' : Fund.pensFund) : Prop :=
  Fund.currentYear f' = Fund.currentYear f
  /\ Fund.ledger f' = Fund.ledger f
  /\ Fund.pcts f' = Fund.pcts f
  /\ Fund.vol f' = Fund.vol f.

(** [y] is [x] rounded to 2 decimal places. *)
Definition rounded_to_cents (x y : Q) : Prop :=
  y = round2 x /\ two_decimals y /\ Qabs (y - x) <= 1 # 200.

(** The plans at the end of each year of a run. *)
Fixpoint trajectory (p : Plan.pensPlan) (ys : list Plan.yearInfo)
    : result (list Plan.pensPlan) :=
  match ys with
  | [] => Ok []
  | y :: ys' =>
      p' ← Plan.advanceOneYear p y;
      ps ← trajectory p' ys';
      Ok (p' :: ps)
  end.

(** The values that a row holds for a key, in the order of the row. *)
Definition valuesOf (key : string) (row : list (string * Q)) : list Q :=
  (filter (fun kv => kv.1 = key) row).*2.

(** What a run records under a key for a plan and a census. *)
Definition recorded (key : string) (pc : Plan.pensPlan * Model.census)
    : list Q :=
  valuesOf key (Model.metrics pc.1 pc.2).

(** A row appended to the lists of a dictionary, key by key. *)
Definition push (d : gmap string (list Q)) (kv : string * Q)
    : gmap string (list Q) :=
  alter (fun l => l ++ [kv.2]) kv.1 d.

Definition pushAll (d : gmap string (list Q)) (row : list (string * Q))
    : gmap string (list Q) :=
  foldl push d row.

(** The volatility of [testFund]. *)
Definition vol0 : Fund.volatility :=
  {| Fund.mean_e := 6 # 100; Fund.std_e := 3 # 100;
     Fund.mean_b := 4 # 100; Fund.std_b := 1 # 100;
     Fund.mean_o := 6 # 100; Fund.std_o := 5 # 100 |}.

(** [pensFund(100, 2020, v)] with the default allocation: 60, 30, 10. *)
Definition fund100 : Fund.pensFund :=
  Fund.init 100 2020 vol0 (6 # 10) (3 # 10) (1 # 10).

(** The same fund with other balances. *)
Definition fund_with (e b o : Q) : Fund.pensFund :=
  Fund.set_balances fund100 e b o.

(** Samples of a year without investment return. *)
Definition flat : Fund.samples :=
  {| Fund.draw_e := 0; Fund.draw_b := 0; Fund.draw_o := 0 |}.


(** The plan at the end of a year whose earnings step gave [r0], [A] and
    the fund [f1] and whose contribution rate is [cr']: steps 7 to 12 of
    the annual cycle, in the order of the specification. *)
Definition yearEnd (p : Plan.pensPlan) (y : Plan.yearInfo)
    (r0 A : Q) (f1 : Fund.pensFund) (cr' : Q) : Plan.pensPlan :=
  let liability' := round2 (Plan.totalLiability y) in
  let normalCost := liability' - Plan.liability p in
  let contribution := Plan.pr p * normalCost in
  let f2 := Fund.addPremiums f1 contribution in
  let paid := Fund.payBenefits f2 (Plan.benefit y) in
  let payGo' := round2 (fst paid) in
  let f4 := Fund.updateLedger (snd paid) (Plan.currentYear p + 1) in
  let assets' := sum3 (Fund.balances (snd paid)) in
  let newUAL := max (liability' - assets' - payGo') 0 in
  {| Plan.currentYear := (Plan.currentYear p + 1)%Z;
     Plan.employ := Plan.employ p;
     Plan.cr := cr';
     Plan.payGo := payGo';
     Plan.totalPay := round2 (Plan.totalSalary y);
     Plan.pr := Plan.pr p;
     Plan.instability :=
       (contribution + Plan.discountRate p * liability')
       - (r0 * A + normalCost);
     Plan.r := round2 (r0 * 100);
     Plan.discountRate := Plan.discountRate p;
     Plan.liability := liability';
     Plan.fund := f4;
     Plan.ual := newUAL;
     Plan.assets := assets';
     Plan.growthRate := round2 (growth (Plan.ual p) newUAL liability') |}.

(** A plan with liability 1000 funded at 75 percent: 450, 225, 75. *)
Definition plan0 : Plan.pensPlan :=
  {| Plan.currentYear := 2000; Plan.employ := 1; Plan.cr := 0;
     Plan.payGo := 0; Plan.totalPay := 0; Plan.pr := 1;
     Plan.instability := 1; Plan.r := 0; Plan.discountRate := 7 # 100;
     Plan.liability := 1000;
     Plan.fund := Fund.init 750 2000 vol0 (6 # 10) (3 # 10) (1 # 10);
     Plan.ual := 250; Plan.assets := 750; Plan.growthRate := 0 |}.

(** A year without hiring: liability 1100, payroll 500, benefits 50. *)
Definition year_quiet : Plan.yearInfo :=
  {| Plan.benefit := 50; Plan.popGrowth := 0; Plan.totalLiability := 1100;
     Plan.totalSalary := 500; Plan.draws := flat |}.

(** A year with one hire and a payroll of 0. *)
Definition year_unpaid : Plan.yearInfo :=
  {| Plan.benefit := 50; Plan.popGrowth := 1; Plan.totalLiability := 1100;
     Plan.totalSalary := 0; Plan.draws := flat |}.

(** A year whose benefits exceed the fund by 0.004. *)
Definition year_short : Plan.yearInfo :=
  {| Plan.benefit := 850004 # 1000; Plan.popGrowth := 0;
     Plan.totalLiability := 1100; Plan.totalSalary := 500;
     Plan.draws := flat |}.

(** A population of 10 active and 5 retired members. *)
Definition census0 : Model.census :=
  {| Model.active := 10; Model.retired := 5; Model.avgService := 25 # 2 |}.

(** Two quiet years, and a year of excessive benefits followed by one more
    year. *)
Definition two_years : list (Plan.yearInfo * Model.census) :=
  [(year_quiet, census0); (year_quiet, census0)].

Definition fatal_years : list (Plan.yearInfo * Model.census) :=
  [(year_short, census0); (year_quiet, census0)].

(** [run[key][i]], or 0 where the run has no such entry. *)
Definition entry (key : string) (i : nat) (run : gmap string (list Q)) : Q :=
  match run !! key with
  | Some l => default 0 (l !! i)
  | None => 0
  end.

(** The mean over the runs of the entry of year [i] under [key]. *)
Definition average (key : string) (i : nat)
    (runs : list (gmap string (list Q))) : Q :=
  foldl Qplus 0 (entry key i <$> runs) / inject_Z (Z.of_nat (length runs)).

(** The rounding that [getModelData] applies to a mean. *)
Definition rounded (key : string) (x : Q) : Q :=
  if Model.integral key then Model.round0 x else round2 x.

(** The twelve rounded means of year [i]. *)
Definition meanRow (runs : list (gmap string (list Q))) (i : nat)
    : list (string * Q) :=
  (fun k => (k, rounded k (average k i runs))) <$> Model.keys.

(** A run that holds at least [n] entries under each of the twelve keys. *)
Definition covers (n : nat) (run : gmap string (list Q)) : Prop :=
  forall k, k ∈ Model.keys -> exists l, run !! k = Some l /\ (n <= length l)%nat.

(** A run cut to the first [n] entries of each of its lists. *)
Definition truncate (n : nat) (run : gmap string (list Q))
    : gmap string (list Q) :=
  take n <$> run.

(** A run of one year in which every value is 1 and then 3, and one in
    which every value is 2 and then 8. *)
Definition run_1_3 : gmap string (list Q) :=
  list_to_map ((fun k => (k, [1; 3])) <$> Model.keys).

Definition run_2_8 : gmap string (list Q) :=
  list_to_map ((fun k => (k, [2; 8])) <$> Model.keys).

(** * Properties *)

(** ** Comparisons, division and rounding *)

Lemma ltb_lt (x y : Q) : ltb x y = true <-> x < y.
Proof. unfold ltb, Qlt. apply Z.ltb_lt. Qed.

Lemma ltb_ge (x y : Q) : ltb x y = false <-> y <= x.
Proof. unfold ltb, Qle. rewrite Z.ltb_ge. reflexivity. Qed.

Lemma geb_le (x y : Q) : geb x y = true <-> y <= x.
Proof. unfold geb. apply Qle_bool_iff. Qed.

Lemma geb_lt (x y : Q) : geb x y = false <-> x < y.
Proof.
  unfold geb. split; intros H.
  - apply Qnot_le_lt. intros Hle. apply Qle_bool_iff in Hle. congruence.
  - destruct (Qle_bool y x) eqn:E; [|reflexivity].
    apply Qle_bool_iff in E. lra.
Qed.

Lemma eqb_eq (x y : Q) : eqb x y = true <-> x == y.
Proof. unfold eqb. apply Qeq_bool_iff. Qed.

Lemma eqb_neq (x y : Q) : eqb x y = false <-> ~ x == y.
Proof.
  unfold eqb. split; intros H.
  - intros E. apply Qeq_bool_iff in E. congruence.
  - destruct (Qeq_bool x y) eqn:E; [|reflexivity].
    apply Qeq_bool_iff in E. contradiction.
Qed.

Lemma neb_neq (x y : Q) : neb x y = true <-> ~ x == y.
Proof.
  unfold neb. rewrite negb_true_iff. apply eqb_neq.
Qed.

Lemma div_ok (x y : Q) : ~ y == 0 -> div x y = Ok (x / y).
Proof. intros H. unfold div. apply eqb_neq in H. rewrite H. reflexivity. Qed.

Lemma div_zero (x y : Q) : y == 0 -> div x y = Raise ZeroDivisionError.
Proof. intros H. unfold div. apply eqb_eq in H. rewrite H. reflexivity. Qed.

Lemma max_0_nonneg (x : Q) : 0 <= max x 0.
Proof.
  unfold max. destruct (ltb x 0) eqn:E; [lra|]. apply ltb_ge in E. exact E.
Qed.

Lemma max_0_neg (x : Q) : x < 0 -> max x 0 = 0.
Proof. intros H. unfold max. apply ltb_lt in H. rewrite H. reflexivity. Qed.

Lemma max_0_id (x : Q) : 0 <= x -> max x 0 = x.
Proof. intros H. unfold max. apply ltb_ge in H. rewrite H. reflexivity. Qed.

(** [round_half_even] is within one half of its argument. *)
Lemma round_half_even_near (x : Q) :
  Qabs (inject_Z (round_half_even x) - x) <= 1 # 2.
Proof.
  destruct x as [n d]. unfold round_half_even. cbn [Qnum Qden].
  pose proof (Z.div_mod n (Zpos d) ltac:(lia)) as Hdm.
  pose proof (Z.mod_pos_bound n (Zpos d) ltac:(lia)) as Hr.
  set (q := (n / Zpos d)%Z) in *. set (r := (n mod Zpos d)%Z) in *.
  apply Qabs_Qle_condition.
  destruct (2 * r ?= Zpos d)%Z eqn:C;
    [apply Z.compare_eq in C | rewrite Z.compare_lt_iff in C
    | rewrite Z.compare_gt_iff in C];
    try destruct (Z.even q);
    unfold Qle, Qminus, Qplus, Qopp, inject_Z; cbn [Qnum Qden];
    split; nia.
Qed.

(** An integer is its own rounding. *)
Lemma round_half_even_int (x : Q) (c : Z) :
  x == inject_Z c -> round_half_even x = c.
Proof.
  destruct x as [n d]. unfold Qeq, inject_Z, round_half_even. cbn [Qnum Qden].
  intros H. rewrite Z.mul_1_r in H. subst n.
  rewrite Z.div_mul by lia. rewrite Z.mod_mul by lia.
  reflexivity.
Qed.

Lemma round_half_even_nonneg (x : Q) : 0 <= x -> (0 <= round_half_even x)%Z.
Proof.
  destruct x as [n d]. unfold Qle, round_half_even. cbn [Qnum Qden].
  intros H. assert (0 <= n / Zpos d)%Z by (apply Z.div_pos; lia).
  destruct (2 * (n mod Zpos d) ?= Zpos d)%Z; try destruct (Z.even _); lia.
Qed.

Lemma hundredths (c : Z) : c # 100 == inject_Z c * (1 # 100).
Proof. unfold Qeq, Qmult, inject_Z. cbn. lia. Qed.

Lemma round2_two_decimals (x : Q) : two_decimals (round2 x).
Proof. exists (round_half_even (x * 100)). reflexivity. Qed.

(** [round(x, 2)] is within half a hundredth of [x]. *)
Lemma round2_near (x : Q) : Qabs (round2 x - x) <= 1 # 200.
Proof.
  pose proof (round_half_even_near (x * 100)) as H.
  apply Qabs_Qle_condition in H. apply Qabs_Qle_condition.
  unfold round2. rewrite hundredths.
  generalize dependent (inject_Z (round_half_even (x * 100))).
  intros z [Hlo Hhi]. split; lra.
Qed.

Lemma round2_nonneg (x : Q) : 0 <= x -> 0 <= round2 x.
Proof.
  intros H. unfold round2.
  assert (0 <= round_half_even (x * 100))%Z as Hz
    by (apply round_half_even_nonneg; lra).
  unfold Qle. cbn. lia.
Qed.

(** A number with two decimal places is its own rounding. *)
Lemma round2_id (x : Q) : two_decimals x -> round2 x == x.
Proof.
  intros [c Hc]. unfold round2.
  rewrite (round_half_even_int (x * 100) c).
  - symmetry. exact Hc.
  - rewrite Hc, hundredths. field.
Qed.

(** ** The fund *)

Lemma shortfall_step_spec (acc x : Q) :
  Fund.shortfall_step acc x == acc + shortfall x.
Proof.
  unfold Fund.shortfall_step, shortfall.
  destruct (ltb x 0) eqn:E; [|lra].
  apply ltb_lt in E. rewrite Qabs_neg by lra. lra.
Qed.

Lemma shortfall_nonneg (x : Q) : 0 <= shortfall x.
Proof.
  unfold shortfall. destruct (ltb x 0); [apply Qabs_nonneg | lra].
Qed.

Lemma payGo_solvent (f : Fund.pensFund) :
  0 <= Fund.total f -> Fund.payGo f = (0, f).
Proof.
  intros H. unfold Fund.payGo. apply geb_le in H. unfold Fund.total in H.
  rewrite H. reflexivity.
Qed.

Lemma payGo_insolvent (f : Fund.pensFund) :
  Fund.total f < 0 ->
  Fund.payGo f =
    (Fund.shortfall_step
       (Fund.shortfall_step (Fund.shortfall_step 0 (Fund.equity f))
          (Fund.bonds f)) (Fund.other f),
     Fund.set_balances f (max (Fund.equity f) 0) (max (Fund.bonds f) 0)
       (max (Fund.other f) 0)).
Proof.
  intros H. unfold Fund.payGo. apply geb_lt in H. unfold Fund.total in H.
  rewrite H. reflexivity.
Qed.

(** C1: when the balances sum to a negative number, [payGo] sets each
    negative balance to zero, keeps each nonnegative balance, touches
    nothing else and returns the sum of the absolute values of the
    negative balances; when the sum is nonnegative it returns 0 and the
    fund is unchanged.  Balances (-50, 30, 10) become (0, 30, 10) and 50 is
    returned. *)
Theorem payGo_shortfall_correction (f : Fund.pensFund) :
  (Fund.total f < 0 ->
     let f' := snd (Fund.payGo f) in
     fst (Fund.payGo f) ==
       shortfall (Fund.equity f) + shortfall (Fund.bonds f)
       + shortfall (Fund.other f)
     /\ (Fund.equity f < 0 -> Fund.equity f' = 0)
     /\ (Fund.bonds f < 0 -> Fund.bonds f' = 0)
     /\ (Fund.other f < 0 -> Fund.other f' = 0)
     /\ (0 <= Fund.equity f -> Fund.equity f' = Fund.equity f)
     /\ (0 <= Fund.bonds f -> Fund.bonds f' = Fund.bonds f)
     /\ (0 <= Fund.other f -> Fund.other f' = Fund.other f)
     /\ Fund.ledger f' = Fund.ledger f
     /\ Fund.currentYear f' = Fund.currentYear f
     /\ Fund.pcts f' = Fund.pcts f /\ Fund.vol f' = Fund.vol f)
  /\ (0 <= Fund.total f -> Fund.payGo f = (0, f))
  /\ (Fund.equity f == -50 -> Fund.bonds f == 30 -> Fund.other f == 10 ->
      let f' := snd (Fund.payGo f) in
      fst (Fund.payGo f) == 50
      /\ Fund.equity f' == 0 /\ Fund.bonds f' == 30 /\ Fund.other f' == 10).
Proof.
  assert (Fund.total f < 0 ->
          fst (Fund.payGo f) ==
            shortfall (Fund.equity f) + shortfall (Fund.bonds f)
            + shortfall (Fund.other f)) as Hsum.
  { intros H. rewrite (payGo_insolvent f H). cbn [fst].
    rewrite !shortfall_step_spec. lra. }
  split; [|split].
  - intros H. split; [exact (Hsum H)|].
    rewrite (payGo_insolvent f H). cbn.
    repeat split; auto using max_0_neg, max_0_id.
  - apply payGo_solvent.
  - intros He Hb Ho.
    assert (Fund.total f < 0) as H by (unfold Fund.total; lra).
    split.
    + rewrite (Hsum H). unfold shortfall.
      assert (ltb (Fund.equity f) 0 = true) as -> by (apply ltb_lt; lra).
      assert (ltb (Fund.bonds f) 0 = false) as -> by (apply ltb_ge; lra).
      assert (ltb (Fund.other f) 0 = false) as -> by (apply ltb_ge; lra).
      rewrite Qabs_neg by lra. lra.
    + rewrite (payGo_insolvent f H). cbn.
      rewrite max_0_neg by lra. rewrite !max_0_id by lra.
      split; [reflexivity | split; assumption].
Qed.

Lemma payGo_shortfall_correction_witness :
  Fund.payGo (fund_with 60 30 10) = (0, fund_with 60 30 10)
  /\ fst (Fund.payGo (fund_with (-50) 30 10)) == 50
  /\ Fund.balances (snd (Fund.payGo (fund_with (-50) 30 10))) = (0, 30, 10).
Proof.
  split; [|split].
  - apply (proj1 (proj2 (payGo_shortfall_correction (fund_with 60 30 10)))).
    vm_compute. discriminate.
  - apply (proj2 (proj2 (payGo_shortfall_correction (fund_with (-50) 30 10))));
      reflexivity.
  - vm_compute. reflexivity.
Defined.

(** C10: when some balance is negative and the three balances sum to a
    nonnegative number, [payGo] returns 0 and the fund, the negative
    balance included, is as before, however often [payGo] is called. *)
Theorem payGo_keeps_negative_balance (f : Fund.pensFund) :
  Fund.equity f < 0 \/ Fund.bonds f < 0 \/ Fund.other f < 0 ->
  0 <= Fund.total f ->
  Fund.payGo f = (0, f)
  /\ forall n : nat, Nat.iter n (fun g => snd (Fund.payGo g)) f = f.
Proof.
  intros _ H. split; [apply payGo_solvent, H|].
  induction n as [|n IH]; [reflexivity|].
  rewrite Nat.iter_succ, IH, (payGo_solvent f H). reflexivity.
Qed.

Lemma payGo_keeps_negative_balance_witness :
  Fund.payGo (fund_with (-10) 30 10) = (0, fund_with (-10) 30 10)
  /\ Fund.equity (snd (Fund.payGo (fund_with (-10) 30 10))) < 0.
Proof.
  destruct (payGo_keeps_negative_balance (fund_with (-10) 30 10)) as [E _].
  - left. reflexivity.
  - vm_compute. discriminate.
  - split; [exact E|]. rewrite E. reflexivity.
Defined.

Lemma addInvestmentEarnings_ok (f : Fund.pensFund) (s : Fund.samples) :
  ~ Fund.total f == 0 ->
  let f' :=
    Fund.set_balances f
      (round2 (Fund.equity f * (1 + Fund.draw_e s)))
      (round2 (Fund.bonds f * (1 + Fund.draw_b s)))
      (round2 (Fund.other f * (1 + Fund.draw_o s))) in
  Fund.addInvestmentEarnings f s =
    Ok ((Fund.total f' - Fund.total f) / Fund.total f, Fund.total f, f').
Proof.
  intros H. unfold Fund.addInvestmentEarnings. cbn.
  fold (Fund.total f). rewrite (div_ok _ _ H). reflexivity.
Qed.

Lemma addInvestmentEarnings_zero (f : Fund.pensFund) (s : Fund.samples) :
  Fund.total f == 0 ->
  Fund.addInvestmentEarnings f s = Raise ZeroDivisionError.
Proof.
  intros H. unfold Fund.addInvestmentEarnings. cbn.
  fold (Fund.total f). rewrite (div_zero _ _ H). reflexivity.
Qed.

Lemma same_frame_set_balances (f : Fund.pensFund) (e b o : Q) :
  same_frame f (Fund.set_balances f e b o).
Proof. repeat split. Qed.

Lemma same_frame_trans (f g h : Fund.pensFund) :
  same_frame f g -> same_frame g h -> same_frame f h.
Proof. unfold same_frame. intuition congruence. Qed.

Lemma same_frame_addPremiums (f : Fund.pensFund) (a : Q) :
  same_frame f (Fund.addPremiums f a).
Proof.
  unfold Fund.addPremiums. destruct (eqb _ _); apply same_frame_set_balances.
Qed.

Lemma same_frame_withdraw (f : Fund.pensFund) (a : Q) :
  same_frame f (Fund.withdraw f a).
Proof.
  unfold Fund.withdraw. destruct (eqb _ _); apply same_frame_set_balances.
Qed.

Lemma same_frame_payGo (f : Fund.pensFund) :
  same_frame f (snd (Fund.payGo f)).
Proof.
  unfold Fund.payGo. destruct (geb _ _); cbn [snd].
  - repeat split.
  - apply same_frame_set_balances.
Qed.

Lemma same_frame_payBenefits (f : Fund.pensFund) (a : Q) :
  same_frame f (snd (Fund.payBenefits f a)).
Proof.
  unfold Fund.payBenefits.
  eapply same_frame_trans; [apply same_frame_withdraw | apply same_frame_payGo].
Qed.

Lemma same_frame_addInvestmentEarnings (f f' : Fund.pensFund)
    (s : Fund.samples) (r A : Q) :
  Fund.addInvestmentEarnings f s = Ok (r, A, f') -> same_frame f f'.
Proof.
  unfold Fund.addInvestmentEarnings. cbn.
  destruct (div _ _); cbn; [|discriminate].
  intros [= _ _ <-]. repeat split.
Qed.

(** C7: [updateLedger(Y)] records the current balances under year [Y],
    keeps the ledger entry of every other year and the balances, and sets
    the current year to [Y]; no other operation of the fund changes the
    current year. *)
Theorem updateLedger_frame (f : Fund.pensFund) (Y : Z) :
  Fund.ledger (Fund.updateLedger f Y) !! Y = Some (Fund.balances f)
  /\ (forall Y' : Z, Y' <> Y ->
        Fund.ledger (Fund.updateLedger f Y) !! Y' = Fund.ledger f !! Y')
  /\ Fund.currentYear (Fund.updateLedger f Y) = Y
  /\ Fund.balances (Fund.updateLedger f Y) = Fund.balances f
  /\ (forall a, Fund.currentYear (Fund.addPremiums f a) = Fund.currentYear f)
  /\ Fund.currentYear (snd (Fund.payGo f)) = Fund.currentYear f
  /\ (forall a,
        Fund.currentYear (snd (Fund.payBenefits f a)) = Fund.currentYear f)
  /\ (forall s r A f',
        Fund.addInvestmentEarnings f s = Ok (r, A, f') ->
        Fund.currentYear f' = Fund.currentYear f).
Proof.
  repeat apply conj.
  - cbn. apply lookup_insert_eq.
  - intros Y' H. cbn. apply lookup_insert_ne. congruence.
  - reflexivity.
  - reflexivity.
  - intros a. apply same_frame_addPremiums.
  - apply same_frame_payGo.
  - intros a. apply same_frame_payBenefits.
  - intros s r A f' H. apply (same_frame_addInvestmentEarnings _ _ _ _ _ H).
Qed.

Lemma updateLedger_frame_witness :
  Fund.ledger (Fund.updateLedger (fund_with 70 20 10) 2021) !! 2020%Z
  = Some (6000 # 100, 3000 # 100, 1000 # 100)
  /\ Fund.ledger (Fund.updateLedger (fund_with 70 20 10) 2021) !! 2021%Z
     = Some (70, 20, 10).
Proof.
  split.
  - rewrite (proj1 (proj2 (updateLedger_frame (fund_with 70 20 10) 2021)) 2020%Z)
      by lia.
    vm_compute. reflexivity.
  - apply (proj1 (updateLedger_frame (fund_with 70 20 10) 2021)).
Defined.

(** C9: [addInvestmentEarnings] divides by the prior total [A] unguarded.
    When the three balances sum to 0 it raises [ZeroDivisionError];
    otherwise it returns [A] and [r = (newA - A) / A], where [newA] is the
    sum of the balances after each was multiplied and rounded. *)
Theorem addInvestmentEarnings_division (f : Fund.pensFund) (s : Fund.samples) :
  (Fund.total f == 0 ->
     Fund.addInvestmentEarnings f s = Raise ZeroDivisionError)
  /\ (~ Fund.total f == 0 ->
      exists r f',
        Fund.addInvestmentEarnings f s = Ok (r, Fund.total f, f')
        /\ Fund.equity f' = round2 (Fund.equity f * (1 + Fund.draw_e s))
        /\ Fund.bonds f' = round2 (Fund.bonds f * (1 + Fund.draw_b s))
        /\ Fund.other f' = round2 (Fund.other f * (1 + Fund.draw_o s))
        /\ r = (Fund.total f' - Fund.total f) / Fund.total f).
Proof.
  split.
  - apply addInvestmentEarnings_zero.
  - intros H. eexists _, _. split.
    + apply (addInvestmentEarnings_ok f s H).
    + repeat split.
Qed.

Lemma addInvestmentEarnings_division_witness :
  Fund.addInvestmentEarnings (fund_with (-40) 30 10) flat
    = Raise ZeroDivisionError
  /\ exists r f',
       Fund.addInvestmentEarnings fund100
         {| Fund.draw_e := 1 # 10; Fund.draw_b := 0; Fund.draw_o := -1 # 10 |}
         = Ok (r, Fund.total fund100, f')
       /\ r == 5 # 100.
Proof.
  split.
  - apply (proj1 (addInvestmentEarnings_division (fund_with (-40) 30 10) flat)).
    reflexivity.
  - destruct (proj2 (addInvestmentEarnings_division fund100
        {| Fund.draw_e := 1 # 10; Fund.draw_b := 0; Fund.draw_o := -1 # 10 |}))
      as (r & f' & E & Ee & Eb & Eo & Er).
    + vm_compute. discriminate.
    + exists r, f'. split.
      * exact E.
      * rewrite Er. unfold Fund.total. rewrite Ee, Eb, Eo. reflexivity.
Defined.

Lemma round2_rounded (x : Q) : rounded_to_cents x (round2 x).
Proof.
  split; [reflexivity|]. split; [apply round2_two_decimals | apply round2_near].
Qed.

Lemma addPremiums_shares (f : Fund.pensFund) (a : Q) :
  ~ Fund.total f == 0 ->
  Fund.addPremiums f a =
    Fund.set_balances f
      (Fund.equity f + Fund.equity f / Fund.total f * a)
      (Fund.bonds f + Fund.bonds f / Fund.total f * a)
      (Fund.other f + Fund.other f / Fund.total f * a).
Proof.
  intros H. unfold Fund.addPremiums. fold (Fund.total f).
  apply eqb_neq in H. rewrite H. reflexivity.
Qed.

Lemma addPremiums_pcts (f : Fund.pensFund) (a : Q) :
  Fund.total f == 0 ->
  Fund.addPremiums f a =
    Fund.set_balances f
      (Fund.equity f + Fund.pct0 f * a)
      (Fund.bonds f + Fund.pct1 f * a)
      (Fund.other f + Fund.pct2 f * a).
Proof.
  intros H. unfold Fund.addPremiums. fold (Fund.total f).
  apply eqb_eq in H. rewrite H. reflexivity.
Qed.

Lemma withdraw_shares (f : Fund.pensFund) (a : Q) :
  ~ Fund.total f == 0 ->
  Fund.withdraw f a =
    Fund.set_balances f
      (Fund.equity f - Fund.equity f / Fund.total f * a)
      (Fund.bonds f - Fund.bonds f / Fund.total f * a)
      (Fund.other f - Fund.other f / Fund.total f * a).
Proof.
  intros H. unfold Fund.withdraw. fold (Fund.total f).
  apply eqb_neq in H. rewrite H. reflexivity.
Qed.

Lemma withdraw_pcts (f : Fund.pensFund) (a : Q) :
  Fund.total f == 0 ->
  Fund.withdraw f a =
    Fund.set_balances f
      (Fund.equity f - Fund.pct0 f * a)
      (Fund.bonds f - Fund.pct1 f * a)
      (Fund.other f - Fund.pct2 f * a).
Proof.
  intros H. unfold Fund.withdraw. fold (Fund.total f).
  apply eqb_eq in H. rewrite H. reflexivity.
Qed.

(** The shares add up to the whole amount. *)
Lemma addPremiums_total (f : Fund.pensFund) (a : Q) :
  ~ Fund.total f == 0 ->
  Fund.total (Fund.addPremiums f a) == Fund.total f + a.
Proof.
  intros H. rewrite (addPremiums_shares f a H).
  unfold Fund.total in *. cbn. field. exact H.
Qed.

Lemma withdraw_total (f : Fund.pensFund) (a : Q) :
  ~ Fund.total f == 0 ->
  Fund.total (Fund.withdraw f a) == Fund.total f - a.
Proof.
  intros H. rewrite (withdraw_shares f a H).
  unfold Fund.total in *. cbn. field. exact H.
Qed.

(** C5, as stated, fails for [payBenefits]: a withdrawal of 200 from the
    balances (60, 30, 10) leaves equity at 0, not at 60 - 0.6 * 200. *)
Lemma payBenefits_not_proportional :
  0 < Fund.total fund100
  /\ ~ Fund.equity (snd (Fund.payBenefits fund100 200))
       == Fund.equity fund100
          - Fund.equity fund100 / Fund.total fund100 * 200.
Proof.
  split; [reflexivity|]. intros H. vm_compute in H. discriminate.
Qed.

(** C5, amended: for a fund whose total is strictly positive,
    [addPremiums(amount)] adds to each balance its share of the total times
    the amount, and [payBenefits(amount)] subtracts from each balance its
    share times the amount and then applies [payGo], which changes nothing
    when the amount is at most the total; when the total is 0 the static
    allocation fractions take the place of the shares. *)
Theorem proportional_distribution (f : Fund.pensFund) (a : Q) :
  let t := Fund.total f in
  (0 < t ->
     Fund.balances (Fund.addPremiums f a)
       = (Fund.equity f + Fund.equity f / t * a,
          Fund.bonds f + Fund.bonds f / t * a,
          Fund.other f + Fund.other f / t * a)
     /\ Fund.balances (Fund.withdraw f a)
       = (Fund.equity f - Fund.equity f / t * a,
          Fund.bonds f - Fund.bonds f / t * a,
          Fund.other f - Fund.other f / t * a)
     /\ (a <= t -> Fund.payBenefits f a = (0, Fund.withdraw f a)))
  /\ (t == 0 ->
     Fund.balances (Fund.addPremiums f a)
       = (Fund.equity f + Fund.pct0 f * a,
          Fund.bonds f + Fund.pct1 f * a,
          Fund.other f + Fund.pct2 f * a)
     /\ Fund.balances (Fund.withdraw f a)
       = (Fund.equity f - Fund.pct0 f * a,
          Fund.bonds f - Fund.pct1 f * a,
          Fund.other f - Fund.pct2 f * a))
  /\ Fund.payBenefits f a = Fund.payGo (Fund.withdraw f a).
Proof.
  cbv zeta. split; [|split].
  - intros Ht. assert (~ Fund.total f == 0) as Hne by lra.
    rewrite (addPremiums_shares f a Hne).
    split; [reflexivity|]. split.
    + rewrite (withdraw_shares f a Hne). reflexivity.
    + intros Ha. unfold Fund.payBenefits. apply payGo_solvent.
      rewrite (withdraw_total f a Hne). lra.
  - intros Ht. rewrite (addPremiums_pcts f a Ht), (withdraw_pcts f a Ht).
    split; reflexivity.
  - reflexivity.
Qed.

Lemma proportional_distribution_witness :
  Fund.payBenefits fund100 50 = (0, Fund.withdraw fund100 50)
  /\ Fund.equity (Fund.addPremiums fund100 50) == 90
  /\ Fund.equity (Fund.addPremiums (fund_with 0 0 0) 50) == 30.
Proof.
  pose proof (proportional_distribution fund100 50) as [H _].
  pose proof (proportional_distribution (fund_with 0 0 0) 50) as [_ [H0 _]].
  split; [|split].
  - apply H; vm_compute; discriminate || reflexivity.
  - vm_compute. reflexivity.
  - vm_compute. reflexivity.
Defined.

Lemma not_two_decimals (x : Q) :
  ((Qnum x * 100) mod Zpos (Qden x) <> 0)%Z -> ~ two_decimals x.
Proof.
  intros H [c Hc]. apply H. unfold Qeq in Hc. cbn [Qnum Qden] in Hc.
  rewrite Hc. apply Z.mod_mul. lia.
Qed.

(** C2, as stated, fails for [addPremiums] and [payBenefits]: from the
    balances (60, 30, 10), a premium or a benefit of 0.01 leaves equity at
    60.006 or 59.994. *)
Lemma premiums_and_benefits_not_rounded :
  ~ two_decimals (Fund.equity (Fund.addPremiums fund100 (1 # 100)))
  /\ ~ two_decimals (Fund.equity (snd (Fund.payBenefits fund100 (1 # 100))))
  /\ Fund.equity (Fund.addPremiums fund100 (1 # 100)) == 60006 # 1000
  /\ Fund.equity (snd (Fund.payBenefits fund100 (1 # 100))) == 59994 # 1000.
Proof.
  repeat apply conj;
    try (apply not_two_decimals; vm_compute; discriminate);
    vm_compute; reflexivity.
Qed.

(** C2, amended: construction and [addInvestmentEarnings] leave each of
    the three balances rounded to 2 decimal places, the rounding applied to
    the product; [addPremiums] and the subtraction of [payBenefits] store
    the sum or the difference as it is, without rounding. *)
Theorem rounding_policy :
  (forall assetTotal y v pE pB pO,
     let f := Fund.init assetTotal y v pE pB pO in
     rounded_to_cents (pE * assetTotal) (Fund.equity f)
     /\ rounded_to_cents (pB * assetTotal) (Fund.bonds f)
     /\ rounded_to_cents (pO * assetTotal) (Fund.other f))
  /\ (forall f s r A f',
       Fund.addInvestmentEarnings f s = Ok (r, A, f') ->
       rounded_to_cents (Fund.equity f * (1 + Fund.draw_e s)) (Fund.equity f')
       /\ rounded_to_cents (Fund.bonds f * (1 + Fund.draw_b s)) (Fund.bonds f')
       /\ rounded_to_cents (Fund.other f * (1 + Fund.draw_o s)) (Fund.other f'))
  /\ (forall f a,
       ~ Fund.total f == 0 ->
       Fund.equity (Fund.addPremiums f a)
         = Fund.equity f + Fund.equity f / Fund.total f * a
       /\ Fund.equity (Fund.withdraw f a)
         = Fund.equity f - Fund.equity f / Fund.total f * a).
Proof.
  split; [|split].
  - intros. subst f. cbn. repeat split; apply round2_rounded.
  - intros f s r A f' H. unfold Fund.addInvestmentEarnings in H. cbn in H.
    destruct (div _ _); cbn in H; [|discriminate].
    injection H as _ _ <-. cbn. repeat split; apply round2_rounded.
  - intros f a H. rewrite (addPremiums_shares f a H), (withdraw_shares f a H).
    split; reflexivity.
Qed.

Lemma rounding_policy_witness :
  (exists r A f',
     Fund.addInvestmentEarnings fund100 flat = Ok (r, A, f')
     /\ two_decimals (Fund.equity f'))
  /\ Fund.equity (Fund.addPremiums fund100 (1 # 100))
     = Fund.equity fund100
       + Fund.equity fund100 / Fund.total fund100 * (1 # 100).
Proof.
  destruct rounding_policy as (_ & He & Hp). split.
  - assert (~ Fund.total fund100 == 0) as Hne by (vm_compute; discriminate).
    pose proof (addInvestmentEarnings_ok fund100 flat Hne) as E.
    cbv zeta in E. eexists _, _, _. split; [exact E|].
    apply (He _ _ _ _ _ E).
  - apply Hp. vm_compute. discriminate.
Defined.

(** ** The annual cycle *)

(** [plan0] is what the constructor builds from a liability of 1000. *)
Example init_plan0 :
  match Plan.init 2000 vol0 1 (7 # 100) (75 # 100) 1 1000 with
  | Ok p =>
      Plan.fund p = Plan.fund plan0
      /\ Plan.liability p == Plan.liability plan0
      /\ Plan.ual p == Plan.ual plan0
      /\ Plan.assets p == Plan.assets plan0
  | Raise _ => False
  end.
Proof. vm_compute. repeat apply conj; reflexivity. Qed.

Lemma payGo_fst_nonneg (f : Fund.pensFund) : 0 <= fst (Fund.payGo f).
Proof.
  unfold Fund.payGo. destruct (geb _ _); cbn [fst]; [lra|].
  rewrite !shortfall_step_spec.
  pose proof (shortfall_nonneg (Fund.equity f)).
  pose proof (shortfall_nonneg (Fund.bonds f)).
  pose proof (shortfall_nonneg (Fund.other f)). lra.
Qed.

(** After [payGo] the balances sum to a nonnegative number. *)
Lemma payGo_total_nonneg (f : Fund.pensFund) :
  0 <= Fund.total (snd (Fund.payGo f)).
Proof.
  unfold Fund.payGo. destruct (geb _ _) eqn:E; cbn [snd].
  - apply geb_le in E. exact E.
  - unfold Fund.total. cbn.
    pose proof (max_0_nonneg (Fund.equity f)).
    pose proof (max_0_nonneg (Fund.bonds f)).
    pose proof (max_0_nonneg (Fund.other f)). lra.
Qed.

(** A second call of [payGo] finds nothing to correct. *)
Lemma payGo_idempotent (f : Fund.pensFund) :
  Fund.payGo (snd (Fund.payGo f)) = (0, snd (Fund.payGo f)).
Proof. apply payGo_solvent, payGo_total_nonneg. Qed.

Lemma sum3_balances (f : Fund.pensFund) :
  sum3 (Fund.balances f) == Fund.total f.
Proof. unfold sum3, Fund.balances, Fund.total. lra. Qed.

Lemma ledgerTotal_updateLedger (f : Fund.pensFund) (year : Z) :
  Plan.ledgerTotal (Fund.updateLedger f year) year
  = Ok (sum3 (Fund.balances f)).
Proof.
  unfold Plan.ledgerTotal. cbn. rewrite lookup_insert_eq. reflexivity.
Qed.

(** The growth-rate step raises only for a zero liability under a nonzero
    new UAL. *)
Lemma ualGrowth_ok (oldUAL newUAL liability : Q) :
  (~ newUAL == 0 -> ~ liability == 0) ->
  Plan.ualGrowth oldUAL newUAL liability
  = Ok (growth oldUAL newUAL liability).
Proof.
  intros H. unfold Plan.ualGrowth, growth, div, neb, eqb.
  destruct (Qeq_bool oldUAL 0) eqn:Eo; cbn; [|reflexivity].
  destruct (Qeq_bool newUAL 0) eqn:En; cbn; [reflexivity|].
  assert (~ liability == 0) as HL
    by (apply H; intros E; apply Qeq_bool_iff in E; congruence).
  apply eqb_neq in HL. unfold eqb in HL. rewrite HL. reflexivity.
Qed.

Lemma contributionRate_no_growth (normalCost payGo totalPay : Q) :
  Plan.contributionRate normalCost payGo totalPay 0
  = Ok (if eqb totalPay 0 then 0 else (normalCost + payGo) / totalPay).
Proof.
  unfold Plan.contributionRate, div. cbn.
  destruct (eqb totalPay 0); reflexivity.
Qed.

Lemma contributionRate_growth (normalCost payGo totalPay : Q) (k : Z) :
  k <> 0%Z -> ~ totalPay == 0 ->
  Plan.contributionRate normalCost payGo totalPay k
  = Ok ((normalCost + payGo) / (totalPay * inject_Z k)).
Proof.
  intros Hk Ht. unfold Plan.contributionRate.
  apply Z.eqb_neq in Hk. rewrite Hk. cbn. apply div_ok.
  intros E. apply Qmult_integral in E. destruct E as [E|E]; [tauto|].
  apply Z.eqb_neq in Hk. apply Hk.
  unfold Qeq, inject_Z in E. cbn in E. lia.
Qed.

(** With a payroll of 0 after hiring, the division is unguarded. *)
Lemma contributionRate_unguarded (normalCost payGo totalPay : Q) (k : Z) :
  k <> 0%Z -> totalPay == 0 ->
  Plan.contributionRate normalCost payGo totalPay k
  = Raise ZeroDivisionError.
Proof.
  intros Hk Ht. unfold Plan.contributionRate.
  apply Z.eqb_neq in Hk. rewrite Hk. cbn. apply div_zero.
  rewrite Ht. lra.
Qed.

(** A positive new UAL needs a positive liability: the assets recorded
    after [payBenefits] and the stored [payGo] are not negative. *)
Lemma newUAL_liability (liability' benefit : Q) (f2 : Fund.pensFund) :
  let paid := Fund.payBenefits f2 benefit in
  ~ max (liability' - sum3 (Fund.balances (snd paid)) - round2 (fst paid)) 0
    == 0 ->
  ~ liability' == 0.
Proof.
  cbv zeta. unfold Fund.payBenefits.
  set (w := Fund.withdraw f2 benefit).
  pose proof (payGo_total_nonneg w) as Ht.
  pose proof (round2_nonneg _ (payGo_fst_nonneg w)) as Hg.
  rewrite <- sum3_balances in Ht.
  unfold max. destruct (ltb _ 0) eqn:E.
  - intros H. exfalso. apply H. reflexivity.
  - apply ltb_ge in E. intros H HL. apply H. lra.
Qed.

(** [advanceOneYear] fails only in the earnings step or in the
    contribution-rate step; otherwise it ends the year as [yearEnd]. *)
Lemma advanceOneYear_char (p : Plan.pensPlan) (y : Plan.yearInfo) :
  Plan.advanceOneYear p y =
  match Fund.addInvestmentEarnings (Plan.fund p) (Plan.draws y) with
  | Raise e => Raise e
  | Ok (r0, A, f1) =>
      let normalCost := round2 (Plan.totalLiability y) - Plan.liability p in
      let f2 := Fund.addPremiums f1 (Plan.pr p * normalCost) in
      let paid := Fund.payBenefits f2 (Plan.benefit y) in
      match
        Plan.contributionRate normalCost (round2 (fst paid))
          (round2 (Plan.totalSalary y)) (Plan.popGrowth y)
      with
      | Raise e => Raise e
      | Ok cr' => Ok (yearEnd p y r0 A f1 cr')
      end
  end.
Proof.
  unfold Plan.advanceOneYear, mbind, result_bind, Py.bind.
  destruct (Fund.addInvestmentEarnings _ _) as [[[r0 A] f1]|e]; [|reflexivity].
  cbv zeta.
  set (normalCost := round2 (Plan.totalLiability y) - Plan.liability p).
  set (f2 := Fund.addPremiums f1 (Plan.pr p * normalCost)).
  pose proof (newUAL_liability (round2 (Plan.totalLiability y))
                (Plan.benefit y) f2) as HL.
  cbv zeta in HL. unfold yearEnd. fold normalCost. fold f2.
  destruct (Fund.payBenefits f2 (Plan.benefit y)) as [g f3].
  cbn [fst snd] in *.
  rewrite ledgerTotal_updateLedger.
  destruct (Plan.contributionRate _ _ _ _) as [cr'|e]; [|reflexivity].
  rewrite (ualGrowth_ok _ _ _ HL). reflexivity.
Qed.

(** [advanceOneYear] returns when the fund is not empty before the
    earnings step and the payroll is not 0 after hiring. *)
Lemma advanceOneYear_returns (p : Plan.pensPlan) (y : Plan.yearInfo) :
  ~ Fund.total (Plan.fund p) == 0 ->
  Plan.popGrowth y = 0%Z \/ ~ round2 (Plan.totalSalary y) == 0 ->
  exists r0 A f1 cr',
    Fund.addInvestmentEarnings (Plan.fund p) (Plan.draws y) = Ok (r0, A, f1)
    /\ Plan.advanceOneYear p y = Ok (yearEnd p y r0 A f1 cr').
Proof.
  intros Hf Hpay. rewrite advanceOneYear_char.
  pose proof (addInvestmentEarnings_ok (Plan.fund p) (Plan.draws y) Hf) as E.
  cbv zeta in E. rewrite E. cbv zeta.
  destruct (Z.eq_dec (Plan.popGrowth y) 0%Z) as [Hk|Hk].
  - rewrite Hk, contributionRate_no_growth. eauto 8.
  - destruct Hpay as [Hpay|Hpay]; [contradiction|].
    rewrite (contributionRate_growth _ _ _ _ Hk Hpay). eauto 8.
Qed.

Lemma advanceOneYear_inv (p p' : Plan.pensPlan) (y : Plan.yearInfo) :
  Plan.advanceOneYear p y = Ok p' ->
  exists r0 A f1 cr',
    Fund.addInvestmentEarnings (Plan.fund p) (Plan.draws y) = Ok (r0, A, f1)
    /\ p' = yearEnd p y r0 A f1 cr'.
Proof.
  rewrite advanceOneYear_char.
  destruct (Fund.addInvestmentEarnings _ _) as [[[r0 A] f1]|e]; [|discriminate].
  cbv zeta. destruct (Plan.contributionRate _ _ _ _) as [cr'|e]; [|discriminate].
  intros [= <-]. eauto 8.
Qed.

(** A year of the plan adds one ledger entry and keeps the others. *)
Lemma advanceOneYear_ledger (p p' : Plan.pensPlan) (y : Plan.yearInfo)
    (year : Z) :
  Plan.advanceOneYear p y = Ok p' ->
  year <> (Plan.currentYear p + 1)%Z ->
  Fund.ledger (Plan.fund p') !! year = Fund.ledger (Plan.fund p) !! year.
Proof.
  intros E Hy.
  destruct (advanceOneYear_inv p p' y E) as (r0 & A & f1 & cr' & Ee & ->).
  unfold yearEnd. cbn. rewrite lookup_insert_ne by congruence.
  pose proof (same_frame_addInvestmentEarnings _ _ _ _ _ Ee) as (_ & H1 & _).
  pose proof (same_frame_addPremiums f1
    (Plan.pr p * (round2 (Plan.totalLiability y) - Plan.liability p)))
    as (_ & H2 & _).
  pose proof (same_frame_payBenefits
    (Fund.addPremiums f1
       (Plan.pr p * (round2 (Plan.totalLiability y) - Plan.liability p)))
    (Plan.benefit y)) as (_ & H3 & _).
  rewrite H3, H2, H1. reflexivity.
Qed.

(** C3: the claim says the contribution-rate step never fails, also when
    [popGrowth] is not 0 and [totalPay] is 0.  In the code only the branch
    for [popGrowth = 0] catches the division by zero: with one hire and a
    payroll of 0 the step, and with it [advanceOneYear], raises
    [ZeroDivisionError], though the earnings step before it succeeded. *)
Theorem contributionRate_zero_payroll_raises :
  Plan.contributionRate 100 0 0 1 = Raise ZeroDivisionError
  /\ Plan.contributionRate 100 0 0 0 = Ok 0
  /\ is_ok (Fund.addInvestmentEarnings (Plan.fund plan0)
              (Plan.draws year_unpaid)) = true
  /\ Plan.advanceOneYear plan0 year_unpaid = Raise ZeroDivisionError.
Proof. repeat apply conj; vm_compute; reflexivity. Qed.

(** C4: a call of [advanceOneYear] returns unless the earnings step or
    the contribution-rate step raises, and then
    [ual = newUAL = max(liability - assets - payGo, 0)] and [growthRate] is
    [(newUAL - oldUAL) * 100 / oldUAL] for a nonzero old UAL, else
    [newUAL * 100 / liability] for a nonzero new UAL (the liability is then
    not 0), else 0, rounded to 2 decimals.  Old UAL 0, new UAL 500 and
    liability 1000 give 50. *)
Theorem advanceOneYear_ual_growth (p : Plan.pensPlan) (y : Plan.yearInfo) :
  (~ Fund.total (Plan.fund p) == 0 ->
   Plan.popGrowth y = 0%Z \/ ~ round2 (Plan.totalSalary y) == 0 ->
   exists p', Plan.advanceOneYear p y = Ok p')
  /\ (forall p',
       Plan.advanceOneYear p y = Ok p' ->
       Plan.ual p'
         = max (Plan.liability p' - Plan.assets p' - Plan.payGo p') 0
       /\ Plan.growthRate p'
         = round2 (growth (Plan.ual p) (Plan.ual p') (Plan.liability p'))
       /\ (~ Plan.ual p' == 0 -> ~ Plan.liability p' == 0)
       /\ Plan.liability p' = round2 (Plan.totalLiability y)
       /\ Plan.ledgerTotal (Plan.fund p') (Plan.currentYear p')
         = Ok (Plan.assets p'))
  /\ (exists g, Plan.ualGrowth 0 500 1000 = Ok g /\ round2 g == 50).
Proof.
  split; [|split].
  - intros Hf Hpay.
    destruct (advanceOneYear_returns p y Hf Hpay) as (r0 & A & f1 & cr' & _ & E).
    eauto.
  - intros p' E.
    destruct (advanceOneYear_inv p p' y E) as (r0 & A & f1 & cr' & _ & ->).
    unfold yearEnd. cbn.
    repeat apply conj; try reflexivity.
    + apply newUAL_liability.
    + apply ledgerTotal_updateLedger.
  - eexists. split; vm_compute; reflexivity.
Qed.

Lemma advanceOneYear_ual_growth_witness :
  match Plan.advanceOneYear plan0 year_quiet with
  | Ok p' =>
      Plan.growthRate p'
        = round2 (growth (Plan.ual plan0) (Plan.ual p') (Plan.liability p'))
      /\ Plan.ual p' == 300 /\ Plan.growthRate p' == 20
  | Raise _ => False
  end.
Proof.
  destruct (Plan.advanceOneYear plan0 year_quiet) as [p'|e] eqn:E.
  - split.
    + apply (proj1 (proj2 (advanceOneYear_ual_growth plan0 year_quiet)) p' E).
    + vm_compute in E. injection E as <-. split; reflexivity.
  - destruct (proj1 (advanceOneYear_ual_growth plan0 year_quiet)) as [p' E'].
    + vm_compute. discriminate.
    + left. reflexivity.
    + congruence.
Defined.

(** C6, as stated, fails in one point: the result of [payBenefits] is
    rounded to 2 decimals before it is stored.  With benefits that exceed
    the fund by 0.004, [payBenefits] returns 0.004 and [payGo] is 0. *)
Lemma payGo_stored_rounded :
  match
    Plan.advanceOneYear plan0 year_short,
    Fund.addInvestmentEarnings (Plan.fund plan0) (Plan.draws year_short)
  with
  | Ok p', Ok (_, _, f1) =>
      let contribution :=
        Plan.pr plan0
        * (round2 (Plan.totalLiability year_short) - Plan.liability plan0) in
      let paid :=
        Fund.payBenefits (Fund.addPremiums f1 contribution)
          (Plan.benefit year_short) in
      fst paid == 4 # 1000 /\ Plan.payGo p' == 0
      /\ ~ Plan.payGo p' == fst paid
  | _, _ => False
  end.
Proof.
  vm_compute. repeat apply conj; [reflexivity | reflexivity | discriminate].
Qed.

(** C6, amended: within a call of [advanceOneYear] that returns, the
    earnings step runs on the fund as the year began and yields [r0] and
    [A]; [pr * normalCost] is then added as premiums; [payBenefits] is then
    called with the benefit amount, and its result, rounded to 2 decimals,
    is stored as [payGo]; the ledger is then written for the incremented
    [currentYear], and [assets] is the total of that ledger entry. *)
Theorem advanceOneYear_fund_order (p p' : Plan.pensPlan) (y : Plan.yearInfo) :
  Plan.advanceOneYear p y = Ok p' ->
  exists r0 A f1,
    Fund.addInvestmentEarnings (Plan.fund p) (Plan.draws y) = Ok (r0, A, f1)
    /\ let normalCost := round2 (Plan.totalLiability y) - Plan.liability p in
       let contribution := Plan.pr p * normalCost in
       let f2 := Fund.addPremiums f1 contribution in
       let paid := Fund.payBenefits f2 (Plan.benefit y) in
       Plan.payGo p' = round2 (fst paid)
       /\ Plan.currentYear p' = (Plan.currentYear p + 1)%Z
       /\ Plan.fund p' = Fund.updateLedger (snd paid) (Plan.currentYear p')
       /\ Fund.ledger (Plan.fund p') !! Plan.currentYear p'
          = Some (Fund.balances (snd paid))
       /\ Plan.assets p' = sum3 (Fund.balances (snd paid))
       /\ Plan.r p' = round2 (r0 * 100)
       /\ Plan.instability p'
          = (contribution + Plan.discountRate p * Plan.liability p')
            - (r0 * A + normalCost).
Proof.
  intros E.
  destruct (advanceOneYear_inv p p' y E) as (r0 & A & f1 & cr' & Ee & ->).
  exists r0, A, f1. split; [exact Ee|].
  unfold yearEnd. cbn. repeat apply conj; try reflexivity.
  apply lookup_insert_eq.
Qed.

Lemma advanceOneYear_fund_order_witness :
  match Plan.advanceOneYear plan0 year_quiet with
  | Ok p' =>
      exists r0 A f1,
        Fund.addInvestmentEarnings (Plan.fund plan0) flat = Ok (r0, A, f1)
        /\ Plan.payGo p'
           = round2 (fst (Fund.payBenefits (Fund.addPremiums f1 (1 * (round2 1100 - 1000))) 50))
  | Raise _ => False
  end.
Proof.
  destruct (Plan.advanceOneYear plan0 year_quiet) as [p'|e] eqn:E.
  - destruct (advanceOneYear_fund_order plan0 p' year_quiet E)
      as (r0 & A & f1 & Ee & Hp & _).
    exists r0, A, f1. split; [exact Ee | exact Hp].
  - vm_compute in E. discriminate.
Defined.

(** ** Reporting *)






(** * Further properties of the fund *)

Lemma max_0_shortfall (x : Q) : max x 0 == x + shortfall x.
Proof.
  unfold max, shortfall. destruct (ltb x 0) eqn:E; [|lra].
  apply ltb_lt in E. rewrite Qabs_neg by lra. lra.
Qed.

Lemma shortfall_ge_opp (x : Q) : - x <= shortfall x.
Proof.
  unfold shortfall. destruct (ltb x 0) eqn:E.
  - apply ltb_lt in E. rewrite Qabs_neg by lra. lra.
  - apply ltb_ge in E. lra.
Qed.

(** X1: the constructor records its balances under the year it is given
    and under no other year, and the three rounded balances sum to the
    allocated part of [assetTotal] within three half hundredths. *)
Theorem init_allocation (assetTotal : Q) (y : Z) (v : Fund.volatility)
    (pE pB pO : Q) :
  let f := Fund.init assetTotal y v pE pB pO in
  Fund.currentYear f = y
  /\ Fund.ledger f !! y = Some (Fund.balances f)
  /\ (forall y' : Z, y' <> y -> Fund.ledger f !! y' = None)
  /\ Qabs (Fund.total f - (pE + pB + pO) * assetTotal) <= 3 # 200
  /\ (pE + pB + pO == 1 -> Qabs (Fund.total f - assetTotal) <= 3 # 200).
Proof.
  cbv zeta.
  assert (Qabs (Fund.total (Fund.init assetTotal y v pE pB pO)
                - (pE + pB + pO) * assetTotal) <= 3 # 200) as Hsum.
  { unfold Fund.total, Fund.init. cbn [Fund.equity Fund.bonds Fund.other].
    pose proof (round2_near (pE * assetTotal)) as He.
    pose proof (round2_near (pB * assetTotal)) as Hb.
    pose proof (round2_near (pO * assetTotal)) as Ho.
    apply Qabs_Qle_condition in He, Hb, Ho. apply Qabs_Qle_condition.
    destruct He, Hb, Ho. split; lra. }
  repeat apply conj.
  - reflexivity.
  - cbn. apply lookup_singleton_eq.
  - intros y' Hy. cbn. apply lookup_singleton_ne. congruence.
  - exact Hsum.
  - intros H1. apply Qabs_Qle_condition in Hsum. apply Qabs_Qle_condition.
    destruct Hsum as [Hlo Hhi].
    assert ((pE + pB + pO) * assetTotal == assetTotal) as E
      by (rewrite H1; lra).
    rewrite E in Hlo, Hhi. split; assumption.
Qed.

Lemma init_allocation_witness :
  Qabs (Fund.total (Fund.init (12345 # 1000) 2020 vol0 (6 # 10) (3 # 10)
                      (1 # 10)) - (12345 # 1000)) <= 3 # 200
  /\ Fund.ledger fund100 !! 2021%Z = None.
Proof.
  split.
  - apply (init_allocation (12345 # 1000) 2020 vol0 (6 # 10) (3 # 10) (1 # 10)).
    reflexivity.
  - apply (init_allocation 100 2020 vol0 (6 # 10) (3 # 10) (1 # 10)). lia.
Defined.

Lemma payGo_total_after (f : Fund.pensFund) :
  Fund.total (snd (Fund.payGo f)) == Fund.total f + fst (Fund.payGo f).
Proof.
  destruct (Qlt_le_dec (Fund.total f) 0) as [H|H].
  - rewrite (payGo_insolvent f H). cbn [fst snd].
    rewrite !shortfall_step_spec. unfold Fund.total. cbn.
    rewrite !max_0_shortfall. lra.
  - rewrite (payGo_solvent f H). cbn [fst snd]. lra.
Qed.

(** X2: the amount [payGo] returns is exactly what it adds to the fund:
    the total afterwards is the total before plus the returned amount.
    The return is never negative, the total afterwards is never negative,
    and the return is positive exactly when the total was negative. *)
Theorem payGo_accounting (f : Fund.pensFund) :
  Fund.total (snd (Fund.payGo f)) == Fund.total f + fst (Fund.payGo f)
  /\ 0 <= fst (Fund.payGo f)
  /\ 0 <= Fund.total (snd (Fund.payGo f))
  /\ (0 < fst (Fund.payGo f) <-> Fund.total f < 0).
Proof.
  split; [|split; [apply payGo_fst_nonneg|split; [apply payGo_total_nonneg|]]].
  - apply payGo_total_after.
  - split; intros H.
    + destruct (Qlt_le_dec (Fund.total f) 0) as [Hlt|Hge]; [exact Hlt|].
      rewrite (payGo_solvent f Hge) in H. cbn in H. lra.
    + rewrite (payGo_insolvent f H). cbn [fst].
      rewrite !shortfall_step_spec.
      pose proof (shortfall_ge_opp (Fund.equity f)).
      pose proof (shortfall_ge_opp (Fund.bonds f)).
      pose proof (shortfall_ge_opp (Fund.other f)).
      unfold Fund.total in H. lra.
Qed.

(** X3: a call of [payGo] right after [payGo] or after [payBenefits]
    returns 0 and changes nothing. *)
Theorem payGo_after_correction (f : Fund.pensFund) (benefits : Q) :
  Fund.payGo (snd (Fund.payGo f)) = (0, snd (Fund.payGo f))
  /\ Fund.payGo (snd (Fund.payBenefits f benefits))
     = (0, snd (Fund.payBenefits f benefits)).
Proof.
  split; [apply payGo_idempotent|].
  unfold Fund.payBenefits. apply payGo_idempotent.
Qed.

(** The total after the subtraction of [payBenefits] when the fund is
    empty: the static fractions take the amount. *)
Lemma withdraw_total_pcts (f : Fund.pensFund) (a : Q) :
  Fund.total f == 0 ->
  Fund.total (Fund.withdraw f a)
  == Fund.total f - (Fund.pct0 f + Fund.pct1 f + Fund.pct2 f) * a.
Proof.
  intros H. rewrite (withdraw_pcts f a H). unfold Fund.total. cbn. lra.
Qed.

Lemma addPremiums_total_pcts (f : Fund.pensFund) (a : Q) :
  Fund.total f == 0 ->
  Fund.total (Fund.addPremiums f a)
  == Fund.total f + (Fund.pct0 f + Fund.pct1 f + Fund.pct2 f) * a.
Proof.
  intros H. rewrite (addPremiums_pcts f a H). unfold Fund.total. cbn. lra.
Qed.

(** X4: [addPremiums] raises the total by exactly the premiums, whatever
    the signs of the balances, when the total is not 0; on a total of 0 it
    raises it by the premiums times the sum of the static fractions. *)
Theorem addPremiums_accounting (f : Fund.pensFund) (premiums : Q) :
  (~ Fund.total f == 0 ->
     Fund.total (Fund.addPremiums f premiums) == Fund.total f + premiums)
  /\ (Fund.total f == 0 ->
      Fund.total (Fund.addPremiums f premiums)
      == (Fund.pct0 f + Fund.pct1 f + Fund.pct2 f) * premiums).
Proof.
  split; intros H.
  - apply addPremiums_total, H.
  - rewrite (addPremiums_total_pcts f premiums H), H. lra.
Qed.

Lemma addPremiums_accounting_witness :
  Fund.total (Fund.addPremiums (fund_with (-10) 30 10) 15) == 45
  /\ Fund.total (Fund.addPremiums (fund_with (-40) 30 10) 15) == 15.
Proof.
  destruct (addPremiums_accounting (fund_with (-10) 30 10) 15) as [H _].
  destruct (addPremiums_accounting (fund_with (-40) 30 10) 15) as [_ H0].
  split.
  - rewrite H; [reflexivity|]. vm_compute. discriminate.
  - rewrite H0; reflexivity.
Defined.

(** X5: after [payBenefits] on a fund whose total is not 0, the total is
    the total before, minus the benefits, plus the amount returned for
    injection. *)
Theorem payBenefits_accounting (f : Fund.pensFund) (benefits : Q) :
  ~ Fund.total f == 0 ->
  Fund.total (snd (Fund.payBenefits f benefits))
  == Fund.total f - benefits + fst (Fund.payBenefits f benefits).
Proof.
  intros H. unfold Fund.payBenefits.
  rewrite (payGo_total_after (Fund.withdraw f benefits)).
  rewrite (withdraw_total f benefits H). reflexivity.
Qed.

Lemma payBenefits_accounting_witness :
  Fund.total (snd (Fund.payBenefits fund100 130))
  == Fund.total fund100 - 130 + fst (Fund.payBenefits fund100 130)
  /\ fst (Fund.payBenefits fund100 130) == 30.
Proof.
  split.
  - apply (payBenefits_accounting fund100 130). vm_compute. discriminate.
  - reflexivity.
Defined.

Lemma addPremiums_balances (f : Fund.pensFund) (a : Q) :
  ~ Fund.total f == 0 ->
  let g := Fund.addPremiums f a in
  Fund.equity g == Fund.equity f * (1 + a / Fund.total f)
  /\ Fund.bonds g == Fund.bonds f * (1 + a / Fund.total f)
  /\ Fund.other g == Fund.other f * (1 + a / Fund.total f).
Proof.
  intros H. cbv zeta. rewrite (addPremiums_shares f a H). cbn.
  repeat split; field; exact H.
Qed.

Lemma withdraw_balances (f : Fund.pensFund) (a : Q) :
  ~ Fund.total f == 0 ->
  let g := Fund.withdraw f a in
  Fund.equity g == Fund.equity f * (1 - a / Fund.total f)
  /\ Fund.bonds g == Fund.bonds f * (1 - a / Fund.total f)
  /\ Fund.other g == Fund.other f * (1 - a / Fund.total f).
Proof.
  intros H. cbv zeta. rewrite (withdraw_shares f a H). cbn.
  repeat split; field; exact H.
Qed.

(** X6: on a fund with a positive total, paying out as benefits the
    amount that was just added as premiums gives back the balances as they
    were and calls for no injection, provided the premiums did not bring
    the total to 0. *)
Theorem premiums_then_benefits (f : Fund.pensFund) (a : Q) :
  0 < Fund.total f -> ~ Fund.total f + a == 0 ->
  let f' := snd (Fund.payBenefits (Fund.addPremiums f a) a) in
  fst (Fund.payBenefits (Fund.addPremiums f a) a) = 0
  /\ Fund.equity f' == Fund.equity f
  /\ Fund.bonds f' == Fund.bonds f
  /\ Fund.other f' == Fund.other f.
Proof.
  intros Ht Hta. cbv zeta.
  assert (~ Fund.total f == 0) as Hne by lra.
  set (g := Fund.addPremiums f a).
  assert (Fund.total g == Fund.total f + a) as Hg
    by apply (addPremiums_total f a Hne).
  assert (~ Fund.total g == 0) as Hgne by (rewrite Hg; exact Hta).
  destruct (addPremiums_balances f a Hne) as (Ee & Eb & Eo). fold g in Ee, Eb, Eo.
  destruct (withdraw_balances g a Hgne) as (We & Wb & Wo).
  assert (Fund.equity (Fund.withdraw g a) == Fund.equity f) as Re.
  { rewrite We, Ee, Hg. field. split; assumption. }
  assert (Fund.bonds (Fund.withdraw g a) == Fund.bonds f) as Rb.
  { rewrite Wb, Eb, Hg. field. split; assumption. }
  assert (Fund.other (Fund.withdraw g a) == Fund.other f) as Ro.
  { rewrite Wo, Eo, Hg. field. split; assumption. }
  assert (0 <= Fund.total (Fund.withdraw g a)) as Hsolvent.
  { unfold Fund.total at 1. rewrite Re, Rb, Ro. unfold Fund.total in Ht. lra. }
  unfold Fund.payBenefits. rewrite (payGo_solvent _ Hsolvent). cbn [fst snd].
  repeat split; assumption.
Qed.

Lemma premiums_then_benefits_witness :
  fst (Fund.payBenefits (Fund.addPremiums fund100 50) 50) = 0
  /\ Fund.equity (snd (Fund.payBenefits (Fund.addPremiums fund100 50) 50))
     == 60.
Proof.
  destruct (premiums_then_benefits fund100 50) as (E0 & Ee & _).
  - reflexivity.
  - vm_compute. discriminate.
  - split; [exact E0|]. rewrite Ee. reflexivity.
Defined.

(** X7: when no balance is negative and the benefits exceed the positive
    total, [payBenefits] leaves all three balances at 0 and returns the
    excess of the benefits over the total; the next call of
    [addInvestmentEarnings] then raises [ZeroDivisionError], whatever the
    samples. *)
Theorem payBenefits_depletes (f : Fund.pensFund) (benefits : Q) :
  0 <= Fund.equity f -> 0 <= Fund.bonds f -> 0 <= Fund.other f ->
  0 < Fund.total f -> Fund.total f < benefits ->
  let f' := snd (Fund.payBenefits f benefits) in
  fst (Fund.payBenefits f benefits) == benefits - Fund.total f
  /\ Fund.equity f' == 0 /\ Fund.bonds f' == 0 /\ Fund.other f' == 0
  /\ forall s, Fund.addInvestmentEarnings f' s = Raise ZeroDivisionError.
Proof.
  intros He Hb Ho Ht Ha. cbv zeta.
  assert (~ Fund.total f == 0) as Hne by lra.
  set (w := Fund.withdraw f benefits).
  destruct (withdraw_balances f benefits Hne) as (We & Wb & Wo).
  fold w in We, Wb, Wo.
  assert (1 - benefits / Fund.total f < 0) as Hk.
  { assert (1 < benefits / Fund.total f); [|lra].
    apply Qlt_shift_div_l; lra. }
  set (k := 1 - benefits / Fund.total f) in *.
  assert (Fund.equity w <= 0) as Le by (rewrite We; nra).
  assert (Fund.bonds w <= 0) as Lb by (rewrite Wb; nra).
  assert (Fund.other w <= 0) as Lo by (rewrite Wo; nra).
  assert (Fund.total w < 0) as Hw.
  { unfold w. rewrite (withdraw_total f benefits Hne). lra. }
  assert (forall x, x <= 0 -> shortfall x == - x /\ max x 0 == 0) as Hneg.
  { intros x Hx. rewrite max_0_shortfall. unfold shortfall.
    destruct (ltb x 0) eqn:E.
    - apply ltb_lt in E. rewrite Qabs_neg by lra. split; lra.
    - apply ltb_ge in E. split; lra. }
  destruct (Hneg _ Le) as [Se Me], (Hneg _ Lb) as [Sb Mb],
    (Hneg _ Lo) as [So Mo].
  unfold Fund.payBenefits. fold w. rewrite (payGo_insolvent w Hw).
  cbn [fst snd Fund.equity Fund.bonds Fund.other Fund.set_balances].
  repeat apply conj; try assumption.
  - rewrite !shortfall_step_spec, Se, Sb, So.
    pose proof (withdraw_total f benefits Hne) as E. fold w in E.
    unfold Fund.total in E at 1. unfold Fund.total. unfold Fund.total in E.
    lra.
  - intros s. apply addInvestmentEarnings_zero. unfold Fund.total. cbn.
    rewrite Me, Mb, Mo. reflexivity.
Qed.

Lemma payBenefits_depletes_witness :
  fst (Fund.payBenefits fund100 130) == 30
  /\ Fund.addInvestmentEarnings (snd (Fund.payBenefits fund100 130)) flat
     = Raise ZeroDivisionError.
Proof.
  assert (0 <= Fund.equity fund100) as He by (vm_compute; discriminate).
  assert (0 <= Fund.bonds fund100) as Hb by (vm_compute; discriminate).
  assert (0 <= Fund.other fund100) as Ho by (vm_compute; discriminate).
  assert (0 < Fund.total fund100) as Ht by (vm_compute; reflexivity).
  assert (Fund.total fund100 < 130) as Ha by (vm_compute; reflexivity).
  destruct (payBenefits_depletes fund100 130 He Hb Ho Ht Ha)
    as (E & _ & _ & _ & Hs).
  split; [|apply Hs].
  rewrite E. vm_compute. reflexivity.
Defined.

(** X8: [addPremiums] on a total other than 0 multiplies every balance by
    the same factor, so each balance keeps its share of the total: premiums
    never move the fund towards the static allocation. *)
Theorem addPremiums_keeps_shares (f : Fund.pensFund) (a : Q) :
  ~ Fund.total f == 0 -> ~ Fund.total f + a == 0 ->
  let g := Fund.addPremiums f a in
  Fund.equity g / Fund.total g == Fund.equity f / Fund.total f
  /\ Fund.bonds g / Fund.total g == Fund.bonds f / Fund.total f
  /\ Fund.other g / Fund.total g == Fund.other f / Fund.total f.
Proof.
  intros Hne Hta. cbv zeta.
  destruct (addPremiums_balances f a Hne) as (Ee & Eb & Eo).
  rewrite (addPremiums_total f a Hne), Ee, Eb, Eo.
  repeat split; field; split; assumption.
Qed.

Lemma addPremiums_keeps_shares_witness :
  Fund.equity (Fund.addPremiums (fund_with 20 70 10) 900)
  / Fund.total (Fund.addPremiums (fund_with 20 70 10) 900) == 2 # 10.
Proof.
  destruct (addPremiums_keeps_shares (fund_with 20 70 10) 900) as (E & _).
  - vm_compute. discriminate.
  - vm_compute. discriminate.
  - rewrite E. reflexivity.
Defined.

(** X9: when the total is not 0, the return [r] that
    [addInvestmentEarnings] reports, taken times the prior total, is the
    change of the total, and it differs from the sum of each balance times
    its sample by at most three half hundredths, the effect of rounding the
    three balances. *)
Theorem earnings_realized_return (f : Fund.pensFund) (s : Fund.samples) :
  ~ Fund.total f == 0 ->
  exists r f',
    Fund.addInvestmentEarnings f s = Ok (r, Fund.total f, f')
    /\ r * Fund.total f == Fund.total f' - Fund.total f
    /\ Qabs (r * Fund.total f
             - (Fund.equity f * Fund.draw_e s + Fund.bonds f * Fund.draw_b s
                + Fund.other f * Fund.draw_o s)) <= 3 # 200.
Proof.
  intros H. pose proof (addInvestmentEarnings_ok f s H) as E. cbv zeta in E.
  eexists _, _. split; [exact E|].
  set (f' := Fund.set_balances f _ _ _).
  assert ((Fund.total f' - Fund.total f) / Fund.total f * Fund.total f
          == Fund.total f' - Fund.total f) as Er by (field; exact H).
  split; [exact Er|]. rewrite Er.
  pose proof (round2_near (Fund.equity f * (1 + Fund.draw_e s))) as He.
  pose proof (round2_near (Fund.bonds f * (1 + Fund.draw_b s))) as Hb.
  pose proof (round2_near (Fund.other f * (1 + Fund.draw_o s))) as Ho.
  apply Qabs_Qle_condition in He, Hb, Ho. apply Qabs_Qle_condition.
  unfold f', Fund.total. cbn [Fund.equity Fund.bonds Fund.other Fund.set_balances].
  destruct He, Hb, Ho. split; lra.
Qed.

Lemma earnings_realized_return_witness :
  exists r f',
    Fund.addInvestmentEarnings fund100
      {| Fund.draw_e := 1 # 10; Fund.draw_b := 0; Fund.draw_o := -1 # 10 |}
    = Ok (r, Fund.total fund100, f')
    /\ r * Fund.total fund100 == Fund.total f' - Fund.total fund100.
Proof.
  destruct (earnings_realized_return fund100
    {| Fund.draw_e := 1 # 10; Fund.draw_b := 0; Fund.draw_o := -1 # 10 |})
    as (r & f' & E & Er & _).
  - vm_compute. discriminate.
  - exists r, f'. split; assumption.
Defined.

(** X10: a year in which all three samples are 0 leaves a fund whose
    balances have two decimal places as it was and reports a return of 0. *)
Theorem earnings_flat_year (f : Fund.pensFund) (s : Fund.samples) :
  two_decimals (Fund.equity f) -> two_decimals (Fund.bonds f) ->
  two_decimals (Fund.other f) -> ~ Fund.total f == 0 ->
  Fund.draw_e s == 0 -> Fund.draw_b s == 0 -> Fund.draw_o s == 0 ->
  exists r f',
    Fund.addInvestmentEarnings f s = Ok (r, Fund.total f, f')
    /\ r == 0
    /\ Fund.equity f' == Fund.equity f
    /\ Fund.bonds f' == Fund.bonds f
    /\ Fund.other f' == Fund.other f.
Proof.
  intros [ce Hce] [cb Hcb] [co Hco] H Ee Eb Eo.
  pose proof (addInvestmentEarnings_ok f s H) as E. cbv zeta in E.
  eexists _, _. split; [exact E|].
  assert (forall x d c, x == c # 100 -> d == 0 -> round2 (x * (1 + d)) == x)
    as Hkeep.
  { intros x d c Hx Hd.
    assert (x * (1 + d) == x) as Ex by (rewrite Hd; lra).
    rewrite (round2_id (x * (1 + d))); [exact Ex|].
    exists c. rewrite Ex. exact Hx. }
  pose proof (Hkeep _ _ _ Hce Ee) as Re.
  pose proof (Hkeep _ _ _ Hcb Eb) as Rb.
  pose proof (Hkeep _ _ _ Hco Eo) as Ro.
  cbn [Fund.equity Fund.bonds Fund.other Fund.set_balances].
  split; [|repeat split; assumption].
  unfold Fund.total at 1.
  cbn [Fund.equity Fund.bonds Fund.other Fund.set_balances].
  rewrite Re, Rb, Ro. fold (Fund.total f). field. exact H.
Qed.

Lemma earnings_flat_year_witness :
  exists r f',
    Fund.addInvestmentEarnings fund100 flat = Ok (r, Fund.total fund100, f')
    /\ r == 0 /\ Fund.equity f' == 60.
Proof.
  destruct (earnings_flat_year fund100 flat) as (r & f' & E & Er & Ee & _).
  - exists 6000%Z. reflexivity.
  - exists 3000%Z. reflexivity.
  - exists 1000%Z. reflexivity.
  - vm_compute. discriminate.
  - reflexivity.
  - reflexivity.
  - reflexivity.
  - exists r, f'. repeat split; [exact E | exact Er |].
    rewrite Ee. reflexivity.
Defined.

(** X11: the ledger, the static fractions and the volatility are written
    by the constructor and, the ledger only, by [updateLedger]:
    [addPremiums], [payGo], [payBenefits] and [addInvestmentEarnings] leave
    all of them as they are. *)
Theorem ledger_untouched (f : Fund.pensFund) :
  (forall a, same_frame f (Fund.addPremiums f a))
  /\ same_frame f (snd (Fund.payGo f))
  /\ (forall a, same_frame f (snd (Fund.payBenefits f a)))
  /\ (forall s r A f',
        Fund.addInvestmentEarnings f s = Ok (r, A, f') -> same_frame f f')
  /\ (forall y,
        Fund.pcts (Fund.updateLedger f y) = Fund.pcts f
        /\ Fund.vol (Fund.updateLedger f y) = Fund.vol f).
Proof.
  split; [|split; [|split; [|split]]].
  - apply same_frame_addPremiums.
  - apply same_frame_payGo.
  - apply same_frame_payBenefits.
  - intros s r A f'. apply same_frame_addInvestmentEarnings.
  - intros y. split; reflexivity.
Qed.

(** X12: [updateLedger(Y)] adds year [Y] to the recorded years and no
    other; a second record of the same year replaces the first, of which
    nothing remains. *)
Theorem updateLedger_years (f : Fund.pensFund) (Y : Z) :
  dom (Fund.ledger (Fund.updateLedger f Y)) = {[ Y ]} ∪ dom (Fund.ledger f)
  /\ forall e b o,
       Fund.ledger
         (Fund.updateLedger (Fund.set_balances (Fund.updateLedger f Y) e b o) Y)
       = Fund.ledger (Fund.updateLedger (Fund.set_balances f e b o) Y).
Proof.
  split.
  - cbn. apply dom_insert_L.
  - intros e b o. cbn. apply insert_insert_eq.
Qed.

(** X13: right after [updateLedger(Y)] the report for year [Y] and the
    report for the default year 0 both show the balances just recorded,
    also when [Y] is 0. *)
Theorem annualReport_after_updateLedger (grouped : Q -> string)
    (no_decimals : Z -> string) (f : Fund.pensFund) (Y : Z) :
  Fund.annualReport grouped no_decimals (Fund.updateLedger f Y) Y
    = Fund.found grouped (Fund.balances f)
  /\ Fund.annualReport grouped no_decimals (Fund.updateLedger f Y) 0
    = Fund.found grouped (Fund.balances f).
Proof.
  assert (Fund.ledger (Fund.updateLedger f Y) !! Y = Some (Fund.balances f))
    as E by (cbn; apply lookup_insert_eq).
  split; unfold Fund.annualReport.
  - destruct (Y =? 0)%Z; cbn [Fund.currentYear Fund.updateLedger];
      rewrite E; reflexivity.
  - cbn [Z.eqb Fund.currentYear Fund.updateLedger]. rewrite E. reflexivity.
Qed.

Lemma ledger_untouched_witness :
  Fund.ledger (Fund.addPremiums fund100 50) = Fund.ledger fund100
  /\ forall r A f',
       Fund.addInvestmentEarnings fund100 flat = Ok (r, A, f') ->
       Fund.ledger f' = Fund.ledger fund100.
Proof.
  destruct (ledger_untouched fund100) as (Hp & _ & _ & He & _). split.
  - apply (Hp 50).
  - intros r A f' E. apply (He flat r A f' E).
Defined.

(** * Further properties of the annual cycle *)

Lemma addInvestmentEarnings_inv (f f' : Fund.pensFund) (s : Fund.samples)
    (r A : Q) :
  Fund.addInvestmentEarnings f s = Ok (r, A, f') ->
  ~ Fund.total f == 0
  /\ A = Fund.total f
  /\ r = (Fund.total f' - Fund.total f) / Fund.total f
  /\ f' = Fund.set_balances f
            (round2 (Fund.equity f * (1 + Fund.draw_e s)))
            (round2 (Fund.bonds f * (1 + Fund.draw_b s)))
            (round2 (Fund.other f * (1 + Fund.draw_o s))).
Proof.
  intros E. destruct (Qeq_dec (Fund.total f) 0) as [H0|H0].
  - rewrite (addInvestmentEarnings_zero f s H0) in E. discriminate.
  - pose proof (addInvestmentEarnings_ok f s H0) as E'. cbv zeta in E'.
    rewrite E' in E. injection E as <- <- <-. auto.
Qed.

(** X14: [advanceOneYear] raises exactly when the fund's balances sum to
    0 as the year begins, or when there was hiring and the payroll rounds
    to 0; the exception is then [ZeroDivisionError], never [KeyError]. *)
Theorem advanceOneYear_raises_iff (p : Plan.pensPlan) (y : Plan.yearInfo)
    (e : exn) :
  Plan.advanceOneYear p y = Raise e
  <-> e = ZeroDivisionError
      /\ (Fund.total (Plan.fund p) == 0
          \/ (Plan.popGrowth y <> 0%Z /\ round2 (Plan.totalSalary y) == 0)).
Proof.
  rewrite advanceOneYear_char.
  destruct (Qeq_dec (Fund.total (Plan.fund p)) 0) as [H0|H0].
  - rewrite (addInvestmentEarnings_zero _ (Plan.draws y) H0).
    split; [intros [= <-]; auto | intros [-> _]; reflexivity].
  - pose proof (addInvestmentEarnings_ok _ (Plan.draws y) H0) as E.
    cbv zeta in E. rewrite E. cbv zeta.
    destruct (Z.eq_dec (Plan.popGrowth y) 0%Z) as [Hk|Hk].
    + rewrite Hk, contributionRate_no_growth.
      split; [discriminate|]. intros [_ [H|[H _]]]; contradiction.
    + destruct (Qeq_dec (round2 (Plan.totalSalary y)) 0) as [Hs|Hs].
      * rewrite (contributionRate_unguarded _ _ _ _ Hk Hs).
        split; [intros [= <-]; auto | intros [-> _]; reflexivity].
      * rewrite (contributionRate_growth _ _ _ _ Hk Hs).
        split; [discriminate|]. intros [_ [H|[_ H]]]; contradiction.
Qed.

Lemma sum3_total_updateLedger (g : Fund.pensFund) (y : Z) :
  sum3 (Fund.balances g) == Fund.total (Fund.updateLedger g y).
Proof. unfold sum3, Fund.balances, Fund.total. cbn. lra. Qed.

Lemma yearEnd_assets_total (p : Plan.pensPlan) (y : Plan.yearInfo)
    (r0 A : Q) (f1 : Fund.pensFund) (cr' : Q) :
  Plan.assets (yearEnd p y r0 A f1 cr')
  == Fund.total (Plan.fund (yearEnd p y r0 A f1 cr')).
Proof.
  unfold yearEnd. cbn [Plan.assets Plan.fund].
  apply sum3_total_updateLedger.
Qed.

Lemma yearEnd_nonneg (p : Plan.pensPlan) (y : Plan.yearInfo)
    (r0 A : Q) (f1 : Fund.pensFund) (cr' : Q) :
  let p' := yearEnd p y r0 A f1 cr' in
  0 <= Plan.ual p' /\ 0 <= Plan.assets p' /\ 0 <= Plan.payGo p'
  /\ (0 <= Plan.liability p' -> Plan.ual p' <= Plan.liability p').
Proof.
  cbv zeta. unfold yearEnd.
  cbn [Plan.ual Plan.assets Plan.payGo Plan.liability].
  set (paid := Fund.payBenefits _ _).
  assert (0 <= sum3 (Fund.balances (snd paid))) as Ha.
  { rewrite sum3_balances. apply payGo_total_nonneg. }
  assert (0 <= round2 (fst paid)) as Hg
    by (apply round2_nonneg, payGo_fst_nonneg).
  clearbody paid.
  split; [apply max_0_nonneg|]. split; [exact Ha|]. split; [exact Hg|].
  intros HL. unfold max. destruct (ltb _ 0); lra.
Qed.

(** X15: at the end of a year that [advanceOneYear] completes, the UAL,
    the assets and the stored payGo are not negative, the UAL is at most a
    nonnegative liability, the assets are the total of the fund's balances,
    the fund carries the plan's year, the stored payGo, liability, payroll,
    growth rate and return have two decimal places, and the premium rate,
    the discount rate and the employment growth are as before. *)
Theorem advanceOneYear_invariants (p p' : Plan.pensPlan) (y : Plan.yearInfo) :
  Plan.advanceOneYear p y = Ok p' ->
  0 <= Plan.ual p' /\ 0 <= Plan.assets p' /\ 0 <= Plan.payGo p'
  /\ (0 <= Plan.liability p' -> Plan.ual p' <= Plan.liability p')
  /\ Plan.assets p' == Fund.total (Plan.fund p')
  /\ Fund.currentYear (Plan.fund p') = Plan.currentYear p'
  /\ two_decimals (Plan.payGo p') /\ two_decimals (Plan.liability p')
  /\ two_decimals (Plan.totalPay p') /\ two_decimals (Plan.growthRate p')
  /\ two_decimals (Plan.r p')
  /\ Plan.pr p' = Plan.pr p /\ Plan.discountRate p' = Plan.discountRate p
  /\ Plan.employ p' = Plan.employ p.
Proof.
  intros E.
  destruct (advanceOneYear_inv p p' y E) as (r0 & A & f1 & cr' & _ & ->).
  clear E.
  destruct (yearEnd_nonneg p y r0 A f1 cr') as (Hu & Ha & Hg & HL).
  split; [exact Hu|]. split; [exact Ha|]. split; [exact Hg|].
  split; [exact HL|]. split; [apply yearEnd_assets_total|].
  split; [reflexivity|].
  repeat (split; [apply round2_two_decimals|]).
  split; [reflexivity|]. split; reflexivity.
Qed.

Lemma advanceOneYear_invariants_witness :
  match Plan.advanceOneYear plan0 year_short with
  | Ok p' => 0 <= Plan.ual p' /\ Plan.assets p' == 0
  | Raise _ => False
  end.
Proof.
  destruct (Plan.advanceOneYear plan0 year_short) as [p'|e] eqn:E.
  - split.
    + apply (advanceOneYear_invariants plan0 p' year_short E).
    + vm_compute in E. injection E as <-. reflexivity.
  - vm_compute in E. discriminate.
Defined.

(** X16: a year that ends with assets of 0 is the last one: the next call
    of [advanceOneYear] raises [ZeroDivisionError] in the earnings step,
    whatever the population and the samples of that year are. *)
Theorem advanceOneYear_after_depletion (p p' : Plan.pensPlan)
    (y : Plan.yearInfo) :
  Plan.advanceOneYear p y = Ok p' ->
  Plan.assets p' == 0 ->
  forall y', Plan.advanceOneYear p' y' = Raise ZeroDivisionError.
Proof.
  intros E H0 y'.
  destruct (advanceOneYear_inv p p' y E) as (r0 & A & f1 & cr' & _ & ->).
  clear E. rewrite advanceOneYear_char.
  rewrite addInvestmentEarnings_zero; [reflexivity|].
  rewrite <- yearEnd_assets_total. exact H0.
Qed.

Lemma advanceOneYear_after_depletion_witness :
  match Plan.advanceOneYear plan0 year_short with
  | Ok p' => Plan.advanceOneYear p' year_quiet = Raise ZeroDivisionError
  | Raise _ => False
  end.
Proof.
  destruct (Plan.advanceOneYear plan0 year_short) as [p'|e] eqn:E.
  - apply (advanceOneYear_after_depletion plan0 p' year_short E).
    vm_compute in E. injection E as <-. reflexivity.
  - vm_compute in E. discriminate.
Defined.

(** X17: with a premium rate of 1 the normal cost cancels out of the
    instability, which is then the discount rate times the new liability
    minus the change of the fund's total in the earnings step. *)
Theorem instability_unit_premium (p p' : Plan.pensPlan) (y : Plan.yearInfo) :
  Plan.advanceOneYear p y = Ok p' ->
  Plan.pr p == 1 ->
  exists r0 A f1,
    Fund.addInvestmentEarnings (Plan.fund p) (Plan.draws y) = Ok (r0, A, f1)
    /\ Plan.instability p'
       == Plan.discountRate p * Plan.liability p' - (Fund.total f1 - A).
Proof.
  intros E Hpr.
  destruct (advanceOneYear_inv p p' y E) as (r0 & A & f1 & cr' & Ee & ->).
  exists r0, A, f1. split; [exact Ee|].
  destruct (addInvestmentEarnings_inv _ _ _ _ _ Ee) as (H0 & -> & -> & _).
  unfold yearEnd. cbn [Plan.instability Plan.liability].
  rewrite Hpr. field. exact H0.
Qed.

Lemma instability_unit_premium_witness :
  match Plan.advanceOneYear plan0 year_quiet with
  | Ok p' => Plan.instability p' == 77
  | Raise _ => False
  end.
Proof.
  destruct (Plan.advanceOneYear plan0 year_quiet) as [p'|e] eqn:E.
  - destruct (instability_unit_premium plan0 p' year_quiet E)
      as (r0 & A & f1 & Ee & Hi); [reflexivity|].
    rewrite Hi.
    destruct (addInvestmentEarnings_inv _ _ _ _ _ Ee) as (_ & -> & _ & ->).
    vm_compute in E. injection E as <-. reflexivity.
  - vm_compute in E. discriminate.
Defined.

(** X18: in a year that [advanceOneYear] completes, the assets at the end
    are the fund's total after the earnings step, plus the contribution,
    minus the benefits, plus what [payBenefits] returned; the stored payGo
    is that return within half a hundredth.  This holds when neither the
    total after the earnings step nor that total plus the contribution
    is 0. *)
Theorem advanceOneYear_assets (p p' : Plan.pensPlan) (y : Plan.yearInfo)
    (r0 A : Q) (f1 : Fund.pensFund) :
  Plan.advanceOneYear p y = Ok p' ->
  Fund.addInvestmentEarnings (Plan.fund p) (Plan.draws y) = Ok (r0, A, f1) ->
  let contribution :=
    Plan.pr p * (round2 (Plan.totalLiability y) - Plan.liability p) in
  let paid :=
    Fund.payBenefits (Fund.addPremiums f1 contribution) (Plan.benefit y) in
  ~ Fund.total f1 == 0 -> ~ Fund.total f1 + contribution == 0 ->
  Plan.assets p'
  == Fund.total f1 + contribution - Plan.benefit y + fst paid
  /\ Qabs (Plan.payGo p' - fst paid) <= 1 # 200.
Proof.
  intros E Ee. cbv zeta. intros H1 H2.
  destruct (advanceOneYear_inv p p' y E) as (r0' & A' & f1' & cr' & Ee' & ->).
  rewrite Ee in Ee'. injection Ee' as <- <- <-.
  unfold yearEnd. cbn [Plan.assets Plan.payGo].
  set (c := Plan.pr p * (round2 (Plan.totalLiability y) - Plan.liability p))
    in *.
  split; [|apply round2_near].
  rewrite sum3_balances.
  pose proof (addPremiums_total f1 c H1) as Hp.
  assert (~ Fund.total (Fund.addPremiums f1 c) == 0) as Hne
    by (rewrite Hp; exact H2).
  unfold Fund.payBenefits.
  rewrite payGo_total_after, (withdraw_total _ _ Hne), Hp. reflexivity.
Qed.

Lemma advanceOneYear_assets_witness :
  match Plan.advanceOneYear plan0 year_quiet with
  | Ok p' => Plan.assets p' == 750 + 100 - 50 + 0
  | Raise _ => False
  end.
Proof.
  destruct (Plan.advanceOneYear plan0 year_quiet) as [p'|e] eqn:E.
  - assert (~ Fund.total (Plan.fund plan0) == 0) as H0
      by (vm_compute; discriminate).
    pose proof (addInvestmentEarnings_ok _ (Plan.draws year_quiet) H0) as Ee.
    cbv zeta in Ee.
    destruct (advanceOneYear_assets plan0 p' year_quiet _ _ _ E Ee) as [Ha _].
    + vm_compute. discriminate.
    + vm_compute. discriminate.
    + rewrite Ha. vm_compute. reflexivity.
  - vm_compute in E. discriminate.
Defined.

(** X19: the constructor of the plan always returns.  The liability is
    rounded to 2 decimals, the assets are the funded part of it within
    three half hundredths, and the initial UAL is the unfunded part within
    two hundredths: it is not floored at 0, so a plan funded above its
    liability starts with a negative UAL. *)
Theorem init_funding (currentYear : Z) (v : Fund.volatility)
    (employmentGrowth discountRate funds premiumRate totalLiability : Q) :
  exists p,
    Plan.init currentYear v employmentGrowth discountRate funds premiumRate
      totalLiability = Ok p
    /\ Plan.currentYear p = currentYear
    /\ Fund.currentYear (Plan.fund p) = currentYear
    /\ Plan.liability p = round2 totalLiability
    /\ Plan.ledgerTotal (Plan.fund p) currentYear = Ok (Plan.assets p)
    /\ Qabs (Plan.assets p - funds * Plan.liability p) <= 3 # 200
    /\ Qabs (Plan.ual p - (1 - funds) * Plan.liability p) <= 1 # 50
    /\ (1 + (1 # 50) / Plan.liability p < funds -> 0 < Plan.liability p ->
        Plan.ual p < 0).
Proof.
  unfold Plan.init, mbind, result_bind, Py.bind, Plan.ledgerTotal.
  set (L := round2 totalLiability).
  set (f := Fund.init (funds * L) currentYear v (6 # 10) (3 # 10) (1 # 10)).
  assert (Fund.ledger f !! currentYear = Some (Fund.balances f)) as El
    by (cbn; apply lookup_singleton_eq).
  rewrite El. eexists. split; [reflexivity|].
  cbn [Plan.currentYear Plan.fund Plan.liability Plan.assets Plan.ual].
  rewrite El.
  assert (Qabs (sum3 (Fund.balances f) - funds * L) <= 3 # 200) as Ha.
  { rewrite sum3_balances. unfold f, Fund.total, Fund.init.
    cbn [Fund.equity Fund.bonds Fund.other].
    pose proof (round2_near ((6 # 10) * (funds * L))) as He.
    pose proof (round2_near ((3 # 10) * (funds * L))) as Hb.
    pose proof (round2_near ((1 # 10) * (funds * L))) as Ho.
    apply Qabs_Qle_condition in He, Hb, Ho. apply Qabs_Qle_condition.
    destruct He, Hb, Ho. split; lra. }
  assert (Qabs (round2 (L - sum3 (Fund.balances f)) - (1 - funds) * L)
          <= 1 # 50) as Hu.
  { pose proof (round2_near (L - sum3 (Fund.balances f))) as Hr.
    apply Qabs_Qle_condition in Hr, Ha. apply Qabs_Qle_condition.
    destruct Hr, Ha. split; lra. }
  repeat apply conj; try reflexivity; try assumption.
  intros Hf HL. apply Qabs_Qle_condition in Hu. destruct Hu as [_ Hu].
  assert ((1 # 50) / L * L == 1 # 50) as Ed by (field; lra).
  assert ((1 # 50) < (funds - 1) * L) as Hgap.
  { rewrite <- Ed. apply Qmult_lt_compat_r; lra. }
  lra.
Qed.

Lemma init_funding_witness :
  exists p,
    Plan.init 2000 vol0 1 (7 # 100) (3 # 2) 1 1000 = Ok p /\ Plan.ual p < 0.
Proof.
  destruct (init_funding 2000 vol0 1 (7 # 100) (3 # 2) 1 1000)
    as (p & E & _ & _ & EL & _ & _ & _ & Hneg).
  exists p. split; [exact E|]. apply Hneg; rewrite EL.
  - vm_compute. reflexivity.
  - vm_compute. reflexivity.
Defined.

(** * runModel *)

Lemma append_push (d : gmap string (list Q)) (kv : string * Q) :
  is_Some (d !! kv.1) -> Model.append d kv = Ok (push d kv).
Proof.
  intros [l Hl]. unfold Model.append, push. rewrite Hl. f_equal.
  apply map_eq. intros k. destruct (decide (kv.1 = k)) as [<-|Hk].
  - rewrite lookup_insert_eq, lookup_alter_eq, Hl. reflexivity.
  - rewrite lookup_insert_ne, lookup_alter_ne by assumption. reflexivity.
Qed.

Lemma push_is_Some (d : gmap string (list Q)) (kv : string * Q) (k : string) :
  is_Some (push d kv !! k) <-> is_Some (d !! k).
Proof.
  unfold push. destruct (decide (kv.1 = k)) as [<-|Hk].
  - rewrite lookup_alter_eq, fmap_is_Some. reflexivity.
  - rewrite lookup_alter_ne by assumption. reflexivity.
Qed.

Lemma appendAll_pushAll (row : list (string * Q)) :
  forall d : gmap string (list Q),
    (forall kv, kv ∈ row -> is_Some (d !! kv.1)) ->
    Model.appendAll d row = Ok (pushAll d row).
Proof.
  induction row as [|kv row IH]; intros d Hd; [reflexivity|].
  cbn [Model.appendAll]. rewrite append_push by (apply Hd; left).
  unfold mbind, result_bind, Py.bind. unfold pushAll. cbn [foldl].
  apply IH. intros kv' Hin. apply push_is_Some, Hd. right. exact Hin.
Qed.

Lemma pushAll_lookup (row : list (string * Q)) :
  forall (d : gmap string (list Q)) (k : string),
    pushAll d row !! k = (fun l => l ++ valuesOf k row) <$> d !! k.
Proof.
  unfold pushAll, valuesOf.
  induction row as [|kv row IH]; intros d k; cbn [foldl].
  - rewrite filter_nil. cbn. destruct (d !! k); cbn; [|reflexivity].
    rewrite app_nil_r. reflexivity.
  - rewrite IH, filter_cons. unfold push.
    destruct (decide (kv.1 = k)) as [<-|Hk].
    + rewrite lookup_alter_eq. destruct (d !! kv.1); cbn; [|reflexivity].
      rewrite <- app_assoc. reflexivity.
    + rewrite lookup_alter_ne by assumption. reflexivity.
Qed.

Lemma pushAll_rows_lookup (rows : list (list (string * Q))) :
  forall (d : gmap string (list Q)) (k : string),
    foldl pushAll d rows !! k
    = (fun l => l ++ concat (valuesOf k <$> rows)) <$> d !! k.
Proof.
  induction rows as [|row rows IH]; intros d k; cbn [foldl fmap list_fmap concat].
  - destruct (d !! k); cbn; [|reflexivity]. rewrite app_nil_r. reflexivity.
  - rewrite IH, pushAll_lookup. destruct (d !! k); cbn; [|reflexivity].
    rewrite <- app_assoc. reflexivity.
Qed.

(** The keys of a year's record are the twelve keys, each once. *)
Lemma metrics_keys (p : Plan.pensPlan) (c : Model.census) :
  (Model.metrics p c).*1 = Model.keys.
Proof. reflexivity. Qed.

Lemma in_keys (k : string) :
  bool_decide (k ∈ Model.keys) = true -> k ∈ Model.keys.
Proof. apply bool_decide_eq_true_1. Qed.

Lemma valuesOf_absent (k : string) (row : list (string * Q)) :
  k ∉ row.*1 -> valuesOf k row = [].
Proof.
  unfold valuesOf. induction row as [|kv row IH]; intros Hk; [reflexivity|].
  rewrite fmap_cons, not_elem_of_cons in Hk. destruct Hk as [Hne Hk].
  rewrite filter_cons. destruct (decide (kv.1 = k)); [congruence|].
  apply IH, Hk.
Qed.

Lemma start_lookup (row : list (string * Q)) (k : string) :
  Model.start row !! k = (fun v => [v]) <$> last (valuesOf k row).
Proof.
  unfold Model.start.
  assert (forall d : gmap string (list Q),
            foldl (fun d kv => <[ kv.1 := [kv.2] ]> d) d row !! k
            = match last (valuesOf k row) with
              | Some v => Some [v]
              | None => d !! k
              end) as H.
  { unfold valuesOf. induction row as [|kv row IH]; intros d; [reflexivity|].
    cbn [foldl]. rewrite IH, filter_cons.
    destruct (decide (kv.1 = k)) as [<-|Hk].
    - rewrite fmap_cons, last_cons.
      destruct (last _); [reflexivity|]. apply lookup_insert_eq.
    - rewrite lookup_insert_ne by assumption. reflexivity. }
  rewrite H. destruct (last _); reflexivity.
Qed.

(** Each of the twelve keys has one value in a year's record. *)
Lemma recorded_one (k : string) (pc : Plan.pensPlan * Model.census) :
  k ∈ Model.keys -> exists v, recorded k pc = [v].
Proof.
  unfold Model.keys. intros H.
  repeat (apply elem_of_cons in H as [->|H]; [eexists; reflexivity|]).
  apply elem_of_nil in H. contradiction.
Qed.

Lemma recorded_none (k : string) (pc : Plan.pensPlan * Model.census) :
  k ∉ Model.keys -> recorded k pc = [].
Proof. intros H. apply valuesOf_absent. rewrite metrics_keys. exact H. Qed.

Lemma concat_recorded (k : string) (g : Plan.pensPlan * Model.census -> Q)
    (l : list (Plan.pensPlan * Model.census)) :
  (forall pc, recorded k pc = [g pc]) ->
  concat (recorded k <$> l) = g <$> l.
Proof.
  intros H. induction l as [|pc l IH]; [reflexivity|].
  rewrite !fmap_cons. cbn [concat]. rewrite H, IH. reflexivity.
Qed.

Lemma concat_recorded_length (k : string)
    (l : list (Plan.pensPlan * Model.census)) :
  k ∈ Model.keys -> length (concat (recorded k <$> l)) = length l.
Proof.
  intros H. induction l as [|pc l IH]; [reflexivity|].
  rewrite fmap_cons. cbn [concat].
  destruct (recorded_one k pc H) as [v ->].
  cbn [app length]. rewrite IH. reflexivity.
Qed.

Lemma trajectory_length (ys : list Plan.yearInfo) :
  forall p ps, trajectory p ys = Ok ps -> length ps = length ys.
Proof.
  induction ys as [|y ys IH]; intros p ps; cbn [trajectory].
  - intros [= <-]. reflexivity.
  - unfold mbind, result_bind, Py.bind.
    destruct (Plan.advanceOneYear p y) as [p'|e]; [|discriminate].
    destruct (trajectory p' ys) as [ps'|e] eqn:E; [|discriminate].
    intros [= <-]. cbn. rewrite (IH _ _ E). reflexivity.
Qed.

(** The loop of [runModel] fails where the first year fails and otherwise
    appends one record per year; its appends never raise [KeyError]. *)
Lemma yearsLoop_char (ys : list (Plan.yearInfo * Model.census)) :
  forall (p : Plan.pensPlan) (d : gmap string (list Q)),
    (forall k, k ∈ Model.keys -> is_Some (d !! k)) ->
    Model.yearsLoop p d ys
    = match trajectory p ys.*1 with
      | Raise e => Raise e
      | Ok ps =>
          Ok (foldl pushAll d
                ((fun pc => Model.metrics pc.1 pc.2) <$> zip ps ys.*2))
      end.
Proof.
  induction ys as [|[y c] ys IH]; intros p d Hd; [reflexivity|].
  cbn [Model.yearsLoop trajectory fmap list_fmap fst snd].
  unfold mbind, result_bind, Py.bind.
  destruct (Plan.advanceOneYear p y) as [p'|e]; [|reflexivity].
  rewrite appendAll_pushAll.
  2:{ intros kv Hin. apply Hd. rewrite <- (metrics_keys p' c).
      apply list_elem_of_fmap. exists kv. auto. }
  rewrite IH.
  2:{ intros k Hk. rewrite pushAll_lookup, fmap_is_Some. apply Hd, Hk. }
  fold (fmap (M := list) (@fst Plan.yearInfo Model.census)).
  destruct (trajectory p' ys.*1) as [ps|e]; reflexivity.
Qed.

(** What [runModel] returns, column by column. *)
Lemma runModel_inv (v : Fund.volatility) (eg dr funds prm L : Q)
    (c0 : Model.census) (ys : list (Plan.yearInfo * Model.census))
    (d : gmap string (list Q)) :
  Model.runModel v eg dr funds prm L c0 ys = Ok d ->
  exists p0 ps,
    Plan.init 2000 v eg dr funds prm L = Ok p0
    /\ trajectory p0 ys.*1 = Ok ps
    /\ length ps = length ys
    /\ forall k,
         d !! k
         = if decide (k ∈ Model.keys)
           then Some (concat (recorded k <$> zip (p0 :: ps) (c0 :: ys.*2)))
           else None.
Proof.
  unfold Model.runModel, mbind, result_bind, Py.bind.
  destruct (Plan.init _ _ _ _ _ _ _) as [p0|e]; [|discriminate].
  assert (forall k,
            Model.start (Model.metrics p0 c0) !! k
            = if decide (k ∈ Model.keys) then Some (recorded k (p0, c0))
              else None) as Hstart.
  { intros k. rewrite start_lookup. change (valuesOf k (Model.metrics p0 c0)) with (recorded k (p0, c0)).
    destruct (decide (k ∈ Model.keys)) as [Hk|Hk].
    - destruct (recorded_one k (p0, c0) Hk) as [x ->]. reflexivity.
    - rewrite (recorded_none k (p0, c0) Hk). reflexivity. }
  rewrite yearsLoop_char.
  2:{ intros k Hk. rewrite Hstart, decide_True by exact Hk. eauto. }
  destruct (trajectory p0 ys.*1) as [ps|e] eqn:Et; [|discriminate].
  intros [= <-]. exists p0, ps.
  split; [reflexivity|]. split; [exact Et|].
  split; [rewrite (trajectory_length _ _ _ Et); apply length_fmap|].
  intros k. rewrite pushAll_rows_lookup, Hstart.
  destruct (decide (k ∈ Model.keys)); [|reflexivity].
  cbn [fmap option_fmap option_map zip zip_with list_fmap concat].
  f_equal. f_equal. rewrite <- list_fmap_compose. reflexivity.
Qed.

Lemma zip_fmap_fst {A B C : Type} (g : A -> C) (l1 : list A) (l2 : list B) :
  length l1 = length l2 -> (fun ab => g ab.1) <$> zip l1 l2 = g <$> l1.
Proof.
  revert l2. induction l1 as [|a l1 IH]; intros [|b l2] H; try discriminate;
    [reflexivity|].
  cbn. f_equal. apply IH. cbn in H. lia.
Qed.

Lemma zip_fmap_snd {A B C : Type} (g : B -> C) (l1 : list A) (l2 : list B) :
  length l1 = length l2 -> (fun ab => g ab.2) <$> zip l1 l2 = g <$> l2.
Proof.
  revert l2. induction l1 as [|a l1 IH]; intros [|b l2] H; try discriminate;
    [reflexivity|].
  cbn. f_equal. apply IH. cbn in H. lia.
Qed.

(** X20: the dictionary that [runModel] returns has the twelve keys and no
    other; under each key it holds the value of the constructed plan first
    and then the value at the end of each simulated year, in order: the
    plan's fields as they are, the growth rate rounded to 2 decimals, the
    instability and the average service rounded to integers. *)
Theorem runModel_columns (v : Fund.volatility) (eg dr funds prm L : Q)
    (c0 : Model.census) (ys : list (Plan.yearInfo * Model.census))
    (d : gmap string (list Q)) :
  Model.runModel v eg dr funds prm L c0 ys = Ok d ->
  exists p0 ps,
    Plan.init 2000 v eg dr funds prm L = Ok p0
    /\ trajectory p0 ys.*1 = Ok ps
    /\ let plans := p0 :: ps in
       let cs := c0 :: ys.*2 in
       d !! "UAL"%string = Some (Plan.ual <$> plans)
       /\ d !! "Assets"%string = Some (Plan.assets <$> plans)
       /\ d !! "Liability"%string = Some (Plan.liability <$> plans)
       /\ d !! "UAL Growth(%)"%string
          = Some ((fun p => round2 (Plan.growthRate p)) <$> plans)
       /\ d !! "Active Members"%string
          = Some ((fun c => inject_Z (Model.active c)) <$> cs)
       /\ d !! "Retired Members"%string
          = Some ((fun c => inject_Z (Model.retired c)) <$> cs)
       /\ d !! "Avg. Service"%string
          = Some ((fun c => Model.round0 (Model.avgService c)) <$> cs)
       /\ d !! "Contribution Rate"%string = Some (Plan.cr <$> plans)
       /\ d !! "payGo"%string = Some (Plan.payGo <$> plans)
       /\ d !! "Total Salary"%string = Some (Plan.totalPay <$> plans)
       /\ d !! "Instability"%string
          = Some ((fun p => Model.round0 (Plan.instability p)) <$> plans)
       /\ d !! "Investment Returns(%)"%string = Some (Plan.r <$> plans)
       /\ forall k, k ∉ Model.keys -> d !! k = None.
Proof.
  intros E. destruct (runModel_inv _ _ _ _ _ _ _ _ _ E)
    as (p0 & ps & Ei & Et & Hlen & Hd).
  exists p0, ps. split; [exact Ei|]. split; [exact Et|]. cbv zeta.
  assert (length (p0 :: ps) = length (c0 :: ys.*2)) as Hl
    by (cbn; rewrite length_fmap; congruence).
  assert (forall k (g : Plan.pensPlan -> Q),
            k ∈ Model.keys ->
            (forall pc, recorded k pc = [g pc.1]) ->
            d !! k = Some (g <$> p0 :: ps)) as Hplan.
  { intros k g Hk Hg. rewrite Hd, decide_True by exact Hk.
    rewrite (concat_recorded k (fun pc => g pc.1)) by exact Hg.
    rewrite (zip_fmap_fst g _ _ Hl). reflexivity. }
  assert (forall k (g : Model.census -> Q),
            k ∈ Model.keys ->
            (forall pc, recorded k pc = [g pc.2]) ->
            d !! k = Some (g <$> c0 :: ys.*2)) as Hcensus.
  { intros k g Hk Hg. rewrite Hd, decide_True by exact Hk.
    rewrite (concat_recorded k (fun pc => g pc.2)) by exact Hg.
    rewrite (zip_fmap_snd g _ _ Hl). reflexivity. }
  assert (forall k, bool_decide (k ∈ Model.keys) = true -> k ∈ Model.keys)
    as Hin by (intros k; apply bool_decide_eq_true_1).
  repeat apply conj;
    try (apply Hplan; [apply Hin; vm_compute; reflexivity
                      | intros pc; reflexivity]);
    try (apply Hcensus; [apply Hin; vm_compute; reflexivity
                        | intros pc; reflexivity]).
  intros k Hk. rewrite Hd, decide_False by exact Hk. reflexivity.
Qed.

Lemma two_years_return :
  is_ok (Model.runModel vol0 1 (7 # 100) (75 # 100) 1 1000 census0 two_years)
  = true.
Proof. vm_compute. reflexivity. Qed.

Lemma runModel_columns_witness :
  match Model.runModel vol0 1 (7 # 100) (75 # 100) 1 1000 census0 two_years with
  | Ok d =>
      exists p0 ps,
        Plan.init 2000 vol0 1 (7 # 100) (75 # 100) 1 1000 = Ok p0
        /\ d !! "UAL"%string = Some (Plan.ual <$> p0 :: ps)
        /\ length ps = 2%nat
  | Raise _ => False
  end.
Proof.
  destruct (Model.runModel _ _ _ _ _ _ _ _) as [d|e] eqn:E.
  - destruct (runModel_columns _ _ _ _ _ _ _ _ _ E)
      as (p0 & ps & Ei & Et & Hu & _).
    exists p0, ps. split; [exact Ei|]. split; [exact Hu|].
    apply (trajectory_length _ _ _ Et).
  - pose proof two_years_return as Hok. rewrite E in Hok. discriminate.
Defined.

Lemma advanceOneYear_nonneg (p p' : Plan.pensPlan) (y : Plan.yearInfo) :
  Plan.advanceOneYear p y = Ok p' ->
  0 <= Plan.ual p' /\ 0 <= Plan.assets p' /\ 0 <= Plan.payGo p'.
Proof.
  intros E.
  destruct (advanceOneYear_inv p p' y E) as (r0 & A & f1 & cr' & _ & ->).
  clear E. destruct (yearEnd_nonneg p y r0 A f1 cr') as (Hu & Ha & Hg & _).
  split; [exact Hu|]. split; [exact Ha | exact Hg].
Qed.

Lemma advanceOneYear_consistent (p p' : Plan.pensPlan) (y : Plan.yearInfo) :
  Plan.advanceOneYear p y = Ok p' ->
  ~ Fund.total (Plan.fund p) == 0
  /\ Plan.assets p' == Fund.total (Plan.fund p').
Proof.
  intros E.
  destruct (advanceOneYear_inv p p' y E) as (r0 & A & f1 & cr' & Ee & ->).
  destruct (addInvestmentEarnings_inv _ _ _ _ _ Ee) as (H0 & _).
  split; [exact H0 | apply yearEnd_assets_total].
Qed.

Lemma init_consistent (cy : Z) (v : Fund.volatility) (eg dr funds prm L : Q)
    (p : Plan.pensPlan) :
  Plan.init cy v eg dr funds prm L = Ok p ->
  Plan.assets p == Fund.total (Plan.fund p).
Proof.
  unfold Plan.init, mbind, result_bind, Py.bind, Plan.ledgerTotal.
  cbn [Fund.ledger Fund.init]. rewrite lookup_singleton_eq.
  intros [= <-]. cbn [Plan.assets Plan.fund].
  unfold sum3, Fund.total. cbn [Fund.equity Fund.bonds Fund.other Fund.init].
  lra.
Qed.

Lemma trajectory_Forall (P : Plan.pensPlan -> Prop) (ys : list Plan.yearInfo) :
  (forall p p' y, Plan.advanceOneYear p y = Ok p' -> P p') ->
  forall p ps, trajectory p ys = Ok ps -> Forall P ps.
Proof.
  intros HP. induction ys as [|y ys IH]; intros p ps; cbn [trajectory].
  - intros [= <-]. constructor.
  - unfold mbind, result_bind, Py.bind.
    destruct (Plan.advanceOneYear p y) as [p'|e] eqn:E; [|discriminate].
    destruct (trajectory p' ys) as [ps'|e] eqn:Et; [|discriminate].
    intros [= <-]. constructor; [exact (HP _ _ _ E) | exact (IH _ _ Et)].
Qed.

(** Every plan of a run but the last has assets other than 0. *)
Lemma trajectory_assets (ys : list Plan.yearInfo) :
  forall p ps,
    Plan.assets p == Fund.total (Plan.fund p) ->
    trajectory p ys = Ok ps ->
    forall i q, (i < length ys)%nat -> (p :: ps) !! i = Some q ->
                ~ Plan.assets q == 0.
Proof.
  induction ys as [|y ys IH]; intros p ps Hc; cbn [trajectory].
  - intros _ i q Hi. cbn in Hi. lia.
  - unfold mbind, result_bind, Py.bind.
    destruct (Plan.advanceOneYear p y) as [p'|e] eqn:E; [|discriminate].
    destruct (trajectory p' ys) as [ps'|e] eqn:Et; [|discriminate].
    intros [= <-] i q Hi Hq.
    destruct (advanceOneYear_consistent _ _ _ E) as [H0 Hc'].
    destruct i as [|i].
    + cbn in Hq. injection Hq as <-. rewrite Hc. exact H0.
    + cbn in Hq, Hi. apply (IH p' ps' Hc' Et i q); [lia | exact Hq].
Qed.

Lemma runModel_key_length (v : Fund.volatility) (eg dr funds prm L : Q)
    (c0 : Model.census) (ys : list (Plan.yearInfo * Model.census))
    (d : gmap string (list Q)) :
  Model.runModel v eg dr funds prm L c0 ys = Ok d ->
  forall k, k ∈ Model.keys ->
            exists l, d !! k = Some l /\ length l = S (length ys).
Proof.
  intros E k Hk. destruct (runModel_inv _ _ _ _ _ _ _ _ _ E)
    as (p0 & ps & _ & _ & Hlen & Hd).
  rewrite Hd, decide_True by exact Hk. eexists. split; [reflexivity|].
  rewrite (concat_recorded_length k _ Hk), length_zip.
  cbn [length]. rewrite length_fmap. lia.
Qed.

(** X21: in the dictionary that [runModel] returns every list has one
    entry more than there were years. *)
Theorem runModel_lengths (v : Fund.volatility) (eg dr funds prm L : Q)
    (c0 : Model.census) (ys : list (Plan.yearInfo * Model.census))
    (d : gmap string (list Q)) :
  Model.runModel v eg dr funds prm L c0 ys = Ok d ->
  forall k, k ∈ Model.keys ->
            exists l, d !! k = Some l /\ length l = S (length ys).
Proof. apply runModel_key_length. Qed.

Lemma runModel_lengths_witness :
  match Model.runModel vol0 1 (7 # 100) (75 # 100) 1 1000 census0 two_years with
  | Ok d => exists l, d !! "payGo"%string = Some l /\ length l = 3%nat
  | Raise _ => False
  end.
Proof.
  destruct (Model.runModel _ _ _ _ _ _ _ _) as [d|e] eqn:E.
  - apply (runModel_lengths _ _ _ _ _ _ _ _ _ E).
    apply in_keys. vm_compute. reflexivity.
  - pose proof two_years_return as Hok. rewrite E in Hok. discriminate.
Defined.

(** X22: in the dictionary that [runModel] returns, every entry of "UAL",
    "Assets" and "payGo" after the first is at least 0.  (The first entry
    of "UAL" is the constructor's, which may be negative.) *)
Theorem runModel_nonnegative (v : Fund.volatility) (eg dr funds prm L : Q)
    (c0 : Model.census) (ys : list (Plan.yearInfo * Model.census))
    (d : gmap string (list Q)) (k : string) :
  Model.runModel v eg dr funds prm L c0 ys = Ok d ->
  k = "UAL"%string \/ k = "Assets"%string \/ k = "payGo"%string ->
  exists x l, d !! k = Some (x :: l) /\ Forall (fun z => 0 <= z) l.
Proof.
  intros E Hk. destruct (runModel_inv _ _ _ _ _ _ _ _ _ E)
    as (p0 & ps & _ & Et & Hlen & Hd).
  pose proof (trajectory_Forall _ _ advanceOneYear_nonneg _ _ Et) as Hnn.
  assert (length ps = length ys.*2) as Hl by (rewrite length_fmap; exact Hlen).
  assert (forall g : Plan.pensPlan -> Q,
            (forall pc, recorded k pc = [g pc.1]) ->
            k ∈ Model.keys ->
            d !! k = Some (g p0 :: (g <$> ps))) as Hcol.
  { intros g Hg Hin. rewrite Hd, decide_True by exact Hin.
    rewrite (concat_recorded k (fun pc => g pc.1)) by exact Hg.
    cbn [zip zip_with fmap list_fmap fst]. f_equal. f_equal.
    apply (zip_fmap_fst g ps ys.*2 Hl). }
  assert (forall k', bool_decide (k' ∈ Model.keys) = true -> k' ∈ Model.keys)
    as Hin by (intros k'; apply bool_decide_eq_true_1).
  destruct Hk as [-> | [-> | ->]].
  - exists (Plan.ual p0), (Plan.ual <$> ps). split.
    + apply Hcol; [intros pc; reflexivity | apply Hin; vm_compute; reflexivity].
    + apply Forall_fmap. eapply Forall_impl; [exact Hnn|]. cbn. tauto.
  - exists (Plan.assets p0), (Plan.assets <$> ps). split.
    + apply Hcol; [intros pc; reflexivity | apply Hin; vm_compute; reflexivity].
    + apply Forall_fmap. eapply Forall_impl; [exact Hnn|]. cbn. tauto.
  - exists (Plan.payGo p0), (Plan.payGo <$> ps). split.
    + apply Hcol; [intros pc; reflexivity | apply Hin; vm_compute; reflexivity].
    + apply Forall_fmap. eapply Forall_impl; [exact Hnn|]. cbn. tauto.
Qed.

Lemma runModel_nonnegative_witness :
  match Model.runModel vol0 1 (7 # 100) (75 # 100) 1 1000 census0 two_years with
  | Ok d =>
      exists x l, d !! "UAL"%string = Some (x :: l)
                  /\ Forall (fun z => 0 <= z) l
  | Raise _ => False
  end.
Proof.
  destruct (Model.runModel _ _ _ _ _ _ _ _) as [d|e] eqn:E.
  - apply (runModel_nonnegative _ _ _ _ _ _ _ _ _ _ E). left. reflexivity.
  - pose proof two_years_return as Hok. rewrite E in Hok. discriminate.
Defined.

(** X23: in the dictionary that [runModel] returns, no entry of "Assets"
    but the last is 0: a year that ends with an empty fund cannot be
    followed by another year. *)
Theorem runModel_assets_nonzero (v : Fund.volatility) (eg dr funds prm L : Q)
    (c0 : Model.census) (ys : list (Plan.yearInfo * Model.census))
    (d : gmap string (list Q)) :
  Model.runModel v eg dr funds prm L c0 ys = Ok d ->
  exists l,
    d !! "Assets"%string = Some l
    /\ forall i x, (i < length ys)%nat -> l !! i = Some x -> ~ x == 0.
Proof.
  intros E. destruct (runModel_inv _ _ _ _ _ _ _ _ _ E)
    as (p0 & ps & Ei & Et & Hlen & Hd).
  exists (Plan.assets <$> p0 :: ps). split.
  - rewrite Hd, decide_True
      by (apply in_keys; vm_compute; reflexivity).
    rewrite (concat_recorded _ (fun pc => Plan.assets pc.1))
      by (intros pc; reflexivity).
    rewrite (zip_fmap_fst Plan.assets); [reflexivity|].
    cbn. rewrite length_fmap. congruence.
  - intros i x Hi Hx. rewrite list_lookup_fmap in Hx.
    destruct ((p0 :: ps) !! i) as [q|] eqn:Eq; [|discriminate].
    injection Hx as <-.
    apply (trajectory_assets ys.*1 p0 ps (init_consistent _ _ _ _ _ _ _ _ Ei)
             Et i q); [rewrite length_fmap; exact Hi | exact Eq].
Qed.

Lemma runModel_assets_nonzero_witness :
  match Model.runModel vol0 1 (7 # 100) (75 # 100) 1 1000 census0 two_years with
  | Ok d =>
      exists l, d !! "Assets"%string = Some l
                /\ forall x, l !! 1%nat = Some x -> ~ x == 0
  | Raise _ => False
  end.
Proof.
  destruct (Model.runModel _ _ _ _ _ _ _ _) as [d|e] eqn:E.
  - destruct (runModel_assets_nonzero _ _ _ _ _ _ _ _ _ E) as (l & El & Hl).
    exists l. split; [exact El|]. intros x. apply Hl. cbn. lia.
  - pose proof two_years_return as Hok. rewrite E in Hok. discriminate.
Defined.

(** X24: [runModel] raises nothing but [ZeroDivisionError], and only when
    there is at least one year to simulate; its dictionary accesses never
    raise [KeyError]. *)
Theorem runModel_raises (v : Fund.volatility) (eg dr funds prm L : Q)
    (c0 : Model.census) (ys : list (Plan.yearInfo * Model.census)) (e : exn) :
  Model.runModel v eg dr funds prm L c0 ys = Raise e ->
  e = ZeroDivisionError /\ ys <> [].
Proof.
  unfold Model.runModel, mbind, result_bind, Py.bind.
  destruct (Plan.init 2000 v eg dr funds prm L) as [p0|e0] eqn:Ei.
  2:{ exfalso. revert Ei.
      unfold Plan.init, mbind, result_bind, Py.bind, Plan.ledgerTotal.
      cbn [Fund.ledger Fund.init]. rewrite lookup_singleton_eq. discriminate. }
  rewrite yearsLoop_char.
  2:{ intros k Hk. rewrite start_lookup. change (valuesOf k (Model.metrics p0 c0)) with (recorded k (p0, c0)).
      destruct (recorded_one k (p0, c0) Hk) as [x ->]. cbn. eauto. }
  destruct (trajectory p0 ys.*1) as [ps|e'] eqn:Et; [discriminate|].
  intros [= ->]. split.
  - clear Ei. revert p0 Et. induction ys as [|[y c] ys IH]; intros p Et;
      cbn [trajectory fmap list_fmap fst] in Et; [discriminate|].
    unfold mbind, result_bind, Py.bind in Et.
    destruct (Plan.advanceOneYear p y) as [p'|e'] eqn:E.
    + destruct (trajectory p' ys.*1) as [ps|e''] eqn:Et'; [discriminate|].
      injection Et as ->. apply (IH p' Et').
    + injection Et as ->. rewrite advanceOneYear_char in E.
      destruct (Qeq_dec (Fund.total (Plan.fund p)) 0) as [H0|H0].
      * rewrite (addInvestmentEarnings_zero _ _ H0) in E. congruence.
      * pose proof (addInvestmentEarnings_ok _ (Plan.draws y) H0) as Ee.
        cbv zeta in Ee. rewrite Ee in E. cbv zeta in E.
        unfold Plan.contributionRate, div, try_zde in E.
        repeat match type of E with
               | context [if ?b then _ else _] => destruct b
               end; congruence.
  - intros ->. discriminate.
Qed.

Lemma runModel_raises_witness :
  Model.runModel vol0 1 (7 # 100) (75 # 100) 1 1000 census0 fatal_years
  = Raise ZeroDivisionError.
Proof.
  destruct (Model.runModel _ _ _ _ _ _ _ _) as [d|e] eqn:E.
  - vm_compute in E. discriminate.
  - destruct (runModel_raises _ _ _ _ _ _ _ _ _ E) as [-> _]. reflexivity.
Defined.

(** * The means of getModelData *)

Lemma insert_push (d : gmap string (list Q)) (k : string) (l : list Q) (v : Q) :
  d !! k = Some l -> <[ k := l ++ [v] ]> d = push d (k, v).
Proof.
  intros Hl. unfold push. cbn [fst snd].
  apply map_eq. intros k'. destruct (decide (k = k')) as [<-|Hk].
  - rewrite lookup_insert_eq, lookup_alter_eq, Hl. reflexivity.
  - rewrite lookup_insert_ne, lookup_alter_ne by assumption. reflexivity.
Qed.

Lemma keys_NoDup : NoDup Model.keys.
Proof. apply (bool_decide_unpack (NoDup Model.keys)). vm_compute. reflexivity. Qed.

Lemma column_entries (key : string) (i : nat)
    (runs : list (gmap string (list Q))) :
  (forall run, run ∈ runs -> exists l x, run !! key = Some l /\ l !! i = Some x) ->
  Model.column key i runs = inr (entry key i <$> runs).
Proof.
  induction runs as [|run runs IH]; intros H; [reflexivity|].
  cbn [Model.column]. destruct (H run) as (l & x & El & Ex); [left|].
  unfold Model.cell. rewrite El, Ex.
  rewrite IH by (intros run' Hin; apply H; right; exact Hin).
  rewrite fmap_cons. unfold entry at 2. rewrite El, Ex. reflexivity.
Qed.

Lemma meanStep_push (runs : list (gmap string (list Q))) (i : nat)
    (md : gmap string (list Q)) (key : string) :
  runs <> [] ->
  (forall run, run ∈ runs -> exists l x, run !! key = Some l /\ l !! i = Some x) ->
  is_Some (md !! key) ->
  Model.meanStep runs i md key
  = inr (push md (key, rounded key (average key i runs))).
Proof.
  intros Hne Hcells [l Hl]. unfold Model.meanStep.
  rewrite (column_entries key i runs Hcells).
  destruct runs as [|run runs]; [contradiction|].
  rewrite fmap_cons. cbn [Model.mean]. rewrite Hl.
  rewrite (insert_push md key l _ Hl). f_equal. f_equal. f_equal.
  unfold rounded, average. rewrite fmap_cons, !length_cons, length_fmap.
  reflexivity.
Qed.

Lemma forEach_keys (runs : list (gmap string (list Q))) (i : nat)
    (ks : list string) :
  runs <> [] ->
  forall md : gmap string (list Q),
    (forall k, k ∈ ks ->
       is_Some (md !! k)
       /\ forall run, run ∈ runs ->
                      exists l x, run !! k = Some l /\ l !! i = Some x) ->
    Model.forEach (Model.meanStep runs i) md ks
    = inr (pushAll md ((fun k => (k, rounded k (average k i runs))) <$> ks)).
Proof.
  intros Hne. induction ks as [|k ks IH]; intros md H; [reflexivity|].
  cbn [Model.forEach]. destruct (H k) as [Hk Hc]; [left|].
  rewrite (meanStep_push runs i md k Hne Hc Hk).
  rewrite fmap_cons. unfold pushAll. cbn [foldl]. apply IH.
  intros k' Hin. destruct (H k') as [Hk' Hc']; [right; exact Hin|].
  split; [apply push_is_Some; exact Hk' | exact Hc'].
Qed.

Lemma forEach_years (runs : list (gmap string (list Q))) (idx : list nat) :
  runs <> [] ->
  (forall i k run, i ∈ idx -> k ∈ Model.keys -> run ∈ runs ->
                   exists l x, run !! k = Some l /\ l !! i = Some x) ->
  forall md : gmap string (list Q),
    (forall k, k ∈ Model.keys -> is_Some (md !! k)) ->
    Model.forEach (fun d i => Model.forEach (Model.meanStep runs i) d Model.keys)
      md idx
    = inr (foldl pushAll md (meanRow runs <$> idx)).
Proof.
  intros Hne. induction idx as [|i idx IH]; intros Hc md Hmd; [reflexivity|].
  cbn [Model.forEach]. rewrite (forEach_keys runs i Model.keys Hne).
  2:{ intros k Hk. split; [apply Hmd, Hk|].
      intros run Hr. apply Hc; [left | exact Hk | exact Hr]. }
  rewrite fmap_cons. cbn [foldl]. fold (meanRow runs i). apply IH.
  - intros i' k run Hi. apply Hc. right. exact Hi.
  - intros k Hk. rewrite pushAll_lookup, fmap_is_Some. apply Hmd, Hk.
Qed.

Lemma empty_lists_lookup (ks : list string) (k : string) :
  forall d : gmap string (list Q),
    foldl (fun d key => <[ key := [] ]> d) d ks !! k
    = if decide (k ∈ ks) then Some [] else d !! k.
Proof.
  induction ks as [|k' ks IH]; intros d; cbn [foldl].
  - rewrite decide_False by apply not_elem_of_nil. reflexivity.
  - rewrite IH. destruct (decide (k ∈ ks)) as [Hin|Hin].
    + rewrite decide_True by (right; exact Hin). reflexivity.
    + destruct (decide (k = k')) as [->|Hne].
      * rewrite decide_True by left. apply lookup_insert_eq.
      * rewrite decide_False by (rewrite elem_of_cons; tauto).
        apply lookup_insert_ne. congruence.
Qed.

Lemma valuesOf_tabulate (h : string -> Q) (k : string) (ks : list string) :
  NoDup ks ->
  valuesOf k ((fun k' => (k', h k')) <$> ks)
  = if decide (k ∈ ks) then [h k] else [].
Proof.
  unfold valuesOf. induction 1 as [|k' ks Hnin Hnd IH].
  - rewrite decide_False by apply not_elem_of_nil. reflexivity.
  - rewrite fmap_cons, filter_cons. cbn [fst].
    destruct (decide (k' = k)) as [->|Hne].
    + rewrite decide_True by left. rewrite fmap_cons, IH.
      rewrite decide_False by exact Hnin. reflexivity.
    + rewrite IH. destruct (decide (k ∈ ks)) as [Hin|Hin].
      * rewrite decide_True by (right; exact Hin). reflexivity.
      * rewrite decide_False by (rewrite elem_of_cons; intuition congruence).
        reflexivity.
Qed.

Lemma concat_meanRow (runs : list (gmap string (list Q))) (k : string)
    (idx : list nat) :
  k ∈ Model.keys ->
  concat (valuesOf k <$> (meanRow runs <$> idx))
  = (fun i => rounded k (average k i runs)) <$> idx.
Proof.
  intros Hk. induction idx as [|i idx IH]; [reflexivity|].
  rewrite !fmap_cons. cbn [concat]. rewrite IH. unfold meanRow at 1.
  rewrite (valuesOf_tabulate (fun k' => rounded k' (average k' i runs)) k
             Model.keys keys_NoDup).
  rewrite decide_True by exact Hk. reflexivity.
Qed.

Lemma concat_meanRow_absent (runs : list (gmap string (list Q))) (k : string)
    (idx : list nat) :
  k ∉ Model.keys -> concat (valuesOf k <$> (meanRow runs <$> idx)) = [].
Proof.
  intros Hk. induction idx as [|i idx IH]; [reflexivity|].
  rewrite !fmap_cons. cbn [concat]. rewrite IH. unfold meanRow at 1.
  rewrite (valuesOf_tabulate (fun k' => rounded k' (average k' i runs)) k
             Model.keys keys_NoDup).
  rewrite decide_False by exact Hk. reflexivity.
Qed.

(** The averaging loops in closed form. *)
Lemma meanData_char (runs : list (gmap string (list Q))) (years : nat) :
  runs <> [] -> Forall (covers years) runs ->
  exists md,
    Model.meanData runs years = inr md
    /\ forall k,
         md !! k
         = if decide (k ∈ Model.keys)
           then Some ((fun i => rounded k (average k i runs)) <$> seq 0 years)
           else None.
Proof.
  intros Hne Hcov. unfold Model.meanData. cbv zeta.
  rewrite (forEach_years runs (seq 0 years) Hne).
  - eexists. split; [reflexivity|]. intros k.
    rewrite pushAll_rows_lookup, empty_lists_lookup, lookup_empty.
    destruct (decide (k ∈ Model.keys)) as [Hk|Hk]; [|reflexivity].
    cbn [fmap option_fmap option_map app].
    rewrite (concat_meanRow runs k _ Hk). reflexivity.
  - intros i k run Hi Hk Hr. apply elem_of_seq in Hi.
    rewrite Forall_forall in Hcov. destruct (Hcov run Hr k Hk) as (l & El & Hl).
    destruct (lookup_lt_is_Some_2 l i) as [x Ex]; [lia|]. eauto.
  - intros k Hk. rewrite empty_lists_lookup, decide_True by exact Hk. eauto.
Qed.

(** X25: with at least one run, each holding at least [years] entries
    under each of the twelve keys, the averaging of [getModelData] returns
    a dictionary with the twelve keys and no other; under each key the
    entry of year [i] is the mean over the runs of their entries of year
    [i], rounded to an integer for "Active Members", "Retired Members",
    "Avg. Service" and "Instability" and to 2 decimals for the others. *)
Theorem meanData_values (runs : list (gmap string (list Q))) (years : nat) :
  runs <> [] -> Forall (covers years) runs ->
  exists md,
    Model.meanData runs years = inr md
    /\ (forall k, k ∈ Model.keys ->
          md !! k
          = Some ((fun i => rounded k (average k i runs)) <$> seq 0 years))
    /\ (forall k, k ∉ Model.keys -> md !! k = None).
Proof.
  intros Hne Hcov.
  destruct (meanData_char runs years Hne Hcov) as (md & E & Hmd).
  exists md. split; [exact E|]. split; intros k Hk; rewrite Hmd.
  - rewrite decide_True by exact Hk. reflexivity.
  - rewrite decide_False by exact Hk. reflexivity.
Qed.

Lemma sample_runs_cover : Forall (covers 2) [run_1_3; run_2_8].
Proof.
  repeat constructor; intros k Hk; unfold Model.keys in Hk;
    repeat (apply elem_of_cons in Hk as [->|Hk];
            [eexists; split; [vm_compute; reflexivity | cbn; lia]|]);
    apply elem_of_nil in Hk; contradiction.
Qed.

Lemma meanData_values_witness :
  exists md,
    Model.meanData [run_1_3; run_2_8] 2 = inr md
    /\ md !! "Assets"%string = Some [150 # 100; 550 # 100]
    /\ md !! "Instability"%string = Some [inject_Z 2; inject_Z 6].
Proof.
  destruct (meanData_values [run_1_3; run_2_8] 2) as (md & E & Hin & _).
  - discriminate.
  - exact sample_runs_cover.
  - exists md. split; [exact E|]. split.
    + rewrite Hin by (apply in_keys; vm_compute; reflexivity).
      vm_compute. reflexivity.
    + rewrite Hin by (apply in_keys; vm_compute; reflexivity).
      vm_compute. reflexivity.
Defined.

Lemma forEach_ext {A S : Type} (body body' : S -> A -> Model.lookupError + S)
    (items : list A) :
  (forall s a, a ∈ items -> body s a = body' s a) ->
  forall s, Model.forEach body s items = Model.forEach body' s items.
Proof.
  induction items as [|a items IH]; intros H s; [reflexivity|].
  cbn [Model.forEach]. rewrite (H s a) by left.
  destruct (body' s a) as [e|s']; [reflexivity|].
  apply IH. intros s0 a0 Hin. apply H. right. exact Hin.
Qed.

Lemma column_take (key : string) (i n : nat)
    (runs : list (gmap string (list Q))) :
  (i < n)%nat ->
  Model.column key i (truncate n <$> runs) = Model.column key i runs.
Proof.
  intros Hi. induction runs as [|run runs IH]; [reflexivity|].
  rewrite fmap_cons. cbn [Model.column]. rewrite IH.
  unfold Model.cell, truncate. rewrite lookup_fmap.
  destruct (run !! key) as [l|]; cbn [fmap option_fmap option_map];
    [|reflexivity].
  rewrite (lookup_take_lt l n i Hi). reflexivity.
Qed.

(** X26: the averaging of [getModelData] over [years] years reads the
    first [years] entries of each list and nothing after them: cutting
    every list of every run to its first [years] entries changes neither
    the means nor an exception.  A run of [runModel] over the same number
    of years holds one entry more, that of the last simulated year, which
    so never enters the means. *)
Theorem meanData_ignores_later (runs : list (gmap string (list Q)))
    (years : nat) :
  Model.meanData (truncate years <$> runs) years
  = Model.meanData runs years.
Proof.
  unfold Model.meanData. cbv zeta. apply forEach_ext.
  intros md i Hi. apply elem_of_seq in Hi. apply forEach_ext.
  intros md' k _. unfold Model.meanStep.
  rewrite (column_take k i years runs) by lia. reflexivity.
Qed.

(** X27: without runs the averaging raises [StatisticsError] as soon as
    there is a year to average; over 0 years it returns the twelve keys
    with empty lists, whatever the runs. *)
Theorem meanData_no_data :
  (forall n, Model.meanData [] (S n) = inl Model.StatisticsError)
  /\ (forall runs,
        exists md,
          Model.meanData runs 0 = inr md
          /\ forall k,
               md !! k = if decide (k ∈ Model.keys) then Some [] else None).
Proof.
  split.
  - intros n. reflexivity.
  - intros runs. eexists. split; [reflexivity|]. intros k.
    rewrite empty_lists_lookup, lookup_empty. reflexivity.
Qed.

(** X28: when every run is what [runModel] returned for [years] years and
    there is at least one run, the averaging of [getModelData] returns,
    raising neither a lookup error nor [StatisticsError]; under each of the
    twelve keys the means have [years] entries, one fewer than each run. *)
Theorem meanData_of_runs (runs : list (gmap string (list Q))) (years : nat) :
  runs <> [] ->
  (forall run, run ∈ runs ->
     exists v eg dr funds prm L c0 ys,
       length ys = years
       /\ Model.runModel v eg dr funds prm L c0 ys = Ok run) ->
  exists md,
    Model.meanData runs years = inr md
    /\ forall k, k ∈ Model.keys ->
         (exists l, md !! k = Some l /\ length l = years)
         /\ forall run, run ∈ runs ->
              exists l', run !! k = Some l' /\ length l' = S years.
Proof.
  intros Hne Hruns.
  assert (forall run k, run ∈ runs -> k ∈ Model.keys ->
            exists l', run !! k = Some l' /\ length l' = S years) as Hlen.
  { intros run k Hr Hk.
    destruct (Hruns run Hr) as (v & eg & dr & funds & prm & L & c0 & ys & Hy & E).
    destruct (runModel_key_length _ _ _ _ _ _ _ _ _ E k Hk) as (l & El & Hl).
    exists l. split; [exact El | congruence]. }
  assert (Forall (covers years) runs) as Hcov.
  { apply Forall_forall. intros run Hr k Hk.
    destruct (Hlen run k Hr Hk) as (l & El & Hl). exists l. split; [exact El|lia]. }
  destruct (meanData_char runs years Hne Hcov) as (md & E & Hmd).
  exists md. split; [exact E|]. intros k Hk. split.
  - rewrite Hmd, decide_True by exact Hk. eexists. split; [reflexivity|].
    rewrite length_fmap. apply length_seq.
  - intros run Hr. apply (Hlen run k Hr Hk).
Qed.

Lemma meanData_of_runs_witness :
  match Model.runModel vol0 1 (7 # 100) (75 # 100) 1 1000 census0 two_years with
  | Ok d =>
      exists md l,
        Model.meanData [d] 2 = inr md
        /\ md !! "UAL"%string = Some l /\ length l = 2%nat
  | Raise _ => False
  end.
Proof.
  destruct (Model.runModel _ _ _ _ _ _ _ _) as [d|e] eqn:E.
  - destruct (meanData_of_runs [d] 2) as (md & Em & Hk).
    + discriminate.
    + intros run Hr. apply list_elem_of_singleton in Hr. subst run.
      exists vol0, 1, (7 # 100), (75 # 100), 1, 1000, census0, two_years.
      split; [reflexivity | exact E].
    + destruct (Hk "UAL"%string) as [(l & El & Hl) _];
        [apply in_keys; vm_compute; reflexivity|].
      exists md, l. auto.
  - pose proof two_years_return as Hok. rewrite E in Hok. discriminate.
Defined.
